(** * Vault: a password-hashing service behind go-kit endpoints

    A shallow embedding of the Go package [Vault] (service, request and
    response shapes, endpoints, the [Endpoints] aggregate, the gRPC codecs),
    of the rate-limiting middleware and of the [main] function of [vaultd],
    followed by the properties of the package's specification.

    Conventions.
    - A Go [string] is a [string]; [[]byte(s)] is [list_byte_of_string s]
      and [string(b)] is [string_of_list_byte b].
    - A Go result [(T, error)] is a pair [T * option error]; [None] is the
      [nil] error.
    - A Go function that can have effects or panic is a computation in the
      monad [M W]: it threads a world [W] and either returns or panics.
    - An [interface{}] is a value of the tagged union [any]; a type assertion
      [x.(T)] panics when the dynamic type of [x] is not [T]. *)

From Stdlib Require Import String List ZArith Bool Lia.
From Stdlib.Strings Require Import Byte.
Import ListNotations.
Local Open Scope string_scope.

(* ================================================================== *)
(** * Part I: the program *)
(* ================================================================== *)

(** ** Errors *)

(** The [error] interface. [errorString] is the value [errors.New] and
    [fmt.Errorf] build; [pkgError] is an error value that belongs to a
    library package (bcrypt, json, net), with the message its [Error]
    method returns. *)
Inductive error : Type :=
| errorString (s : string)
| pkgError (pkg : string) (msg : string).

Definition Error (e : error) : string :=
  match e with
  | errorString s => s
  | pkgError _ msg => msg
  end.

Definition errors_New (text : string) : error := errorString text.

(** ** Computations: world passing with panics *)

Inductive result (A : Type) : Type :=
| Ok (a : A)
| Panic (msg : string).
Arguments Ok {A} a.
Arguments Panic {A} msg.

Definition M (W A : Type) : Type := W -> result (A * W).

Definition ret {W A : Type} (a : A) : M W A := fun w => Ok (a, w).

Definition bind {W A B : Type} (m : M W A) (k : A -> M W B) : M W B :=
  fun w =>
    match m w with
    | Ok (a, w') => k a w'
    | Panic msg => Panic msg
    end.

(** A pure step that may panic (a type assertion, a pointer dereference). *)
Definition lift {W A : Type} (r : result A) : M W A :=
  fun w =>
    match r with
    | Ok a => Ok (a, w)
    | Panic msg => Panic msg
    end.

Definition rbind {A B : Type} (r : result A) (k : A -> result B) : result B :=
  match r with
  | Ok a => k a
  | Panic msg => Panic msg
  end.

Declare Scope go_scope.
Delimit Scope go_scope with go.
Notation "x <- c ;; k" := (bind c (fun x => k))
  (at level 61, c at next level, right associativity) : go_scope.
Notation "' pat <- c ;; k" := (bind c (fun x => match x with pat => k end))
  (at level 61, pat pattern, c at next level, right associativity) : go_scope.
Local Open Scope go_scope.

(** ** context.Context *)

(** The code only passes its context along; [Background] is the one [main]
    creates, [WithValue] stands for the request-scoped contexts derived
    from it. *)
Inductive Context : Type :=
| Background
| WithValue (parent : Context) (key val : string).

(** ** Requests and responses *)

Module hashRequest.
Record t : Type := mk { Password : string }.
End hashRequest.

Module hashResponse.
Record t : Type := mk { Hash : string; Err : string }.
End hashResponse.

Module validateRequest.
Record t : Type := mk { Password : string; Hash : string }.
End validateRequest.

Module validateResponse.
Record t : Type := mk { Valid : bool; Err : string }.
End validateResponse.

(** Modelled from the spec: the protocol-buffer messages of package [pb],
    whose generated Go file is not part of the sources. The fields are the
    ones the codecs of [server_grpc.go] read and write, and the ones the
    specification lists for the RPC service:
    [Hash(HashRequest{password}) -> HashResponse{hash, err}] and
    [Validate(ValidateRequest{password, hash}) -> ValidateResponse{valid}]. *)
Module pb.
Module HashRequest.
Record t : Type := mk { Password : string }.
End HashRequest.
Module HashResponse.
Record t : Type := mk { Hash : string; Err : string }.
End HashResponse.
Module ValidateRequest.
Record t : Type := mk { Password : string; Hash : string }.
End ValidateRequest.
Module ValidateResponse.
Record t : Type := mk { Valid : bool }.
End ValidateResponse.
End pb.

(** ** interface{} *)

(** The dynamic values that travel through an endpoint. A [*pb.T] is an
    optional message: [None] is the nil pointer. *)
Inductive any : Type :=
| nil_interface
| box_hashRequest (v : hashRequest.t)
| box_hashResponse (v : hashResponse.t)
| box_validateRequest (v : validateRequest.t)
| box_validateResponse (v : validateResponse.t)
| box_pbHashRequest (p : option pb.HashRequest.t)
| box_pbHashResponse (p : option pb.HashResponse.t)
| box_pbValidateRequest (p : option pb.ValidateRequest.t)
| box_pbValidateResponse (p : option pb.ValidateResponse.t).

Definition conversion_panic : string := "interface conversion".
Definition nil_deref_panic : string :=
  "invalid memory address or nil pointer dereference".

(** [r.(hashRequest)] and its siblings. *)
Definition assert_hashRequest (r : any) : result hashRequest.t :=
  match r with box_hashRequest v => Ok v | _ => Panic conversion_panic end.

Definition assert_hashResponse (r : any) : result hashResponse.t :=
  match r with box_hashResponse v => Ok v | _ => Panic conversion_panic end.

Definition assert_validateRequest (r : any) : result validateRequest.t :=
  match r with box_validateRequest v => Ok v | _ => Panic conversion_panic end.

Definition assert_validateResponse (r : any) : result validateResponse.t :=
  match r with box_validateResponse v => Ok v | _ => Panic conversion_panic end.

Definition assert_pbHashRequest (r : any) : result (option pb.HashRequest.t) :=
  match r with box_pbHashRequest p => Ok p | _ => Panic conversion_panic end.

Definition assert_pbHashResponse (r : any) : result (option pb.HashResponse.t) :=
  match r with box_pbHashResponse p => Ok p | _ => Panic conversion_panic end.

Definition assert_pbValidateRequest (r : any)
  : result (option pb.ValidateRequest.t) :=
  match r with box_pbValidateRequest p => Ok p | _ => Panic conversion_panic end.

Definition assert_pbValidateResponse (r : any)
  : result (option pb.ValidateResponse.t) :=
  match r with box_pbValidateResponse p => Ok p | _ => Panic conversion_panic end.

(** Reading a field through a pointer. *)
Definition deref {A : Type} (p : option A) : result A :=
  match p with Some v => Ok v | None => Panic nil_deref_panic end.

(** ** The Service interface and go-kit's Endpoint *)

Record Service (W : Type) : Type := mkService {
  Hash : Context -> string -> M W (string * option error);
  Validate : Context -> string -> string -> M W (bool * option error)
}.
Arguments mkService {W} _ _.
Arguments Hash {W} _ _ _.
Arguments Validate {W} _ _ _ _.

(** [endpoint.Endpoint]:
    [func(ctx context.Context, request interface{}) (interface{}, error)]. *)
Definition Endpoint (W : Type) : Type :=
  Context -> any -> M W (any * option error).

(** ** The bcrypt package *)

(** The two functions of [golang.org/x/crypto/bcrypt] the service calls.
    [GenerateFromPassword] draws its salt from the world; the comparison is
    a function of its two arguments. *)
Class Bcrypt (W : Type) : Type := {
  GenerateFromPassword : list byte -> Z -> W -> (list byte * option error) * W;
  CompareHashAndPassword : list byte -> list byte -> option error
}.

(** [bcrypt.DefaultCost]. *)
Definition DefaultCost : Z := 10.

(** ** vaultService *)

Section VaultService.
Context {W : Type} {bcrypt : Bcrypt W}.

Definition vaultService_Hash (ctx : Context) (password : string)
  : M W (string * option error) :=
  fun w =>
    let '((hash, err), w') :=
      GenerateFromPassword (list_byte_of_string password) DefaultCost w in
    match err with
    | Some e => Ok (("", Some e), w')
    | None => Ok ((string_of_list_byte hash, None), w')
    end.

Definition vaultService_Validate (ctx : Context) (password hash : string)
  : M W (bool * option error) :=
  let err :=
    CompareHashAndPassword (list_byte_of_string hash)
                           (list_byte_of_string password) in
  match err with
  | Some _ => ret (false, None)
  | None => ret (true, None)
  end.

(** [NewService]. *)
Definition NewService : Service W :=
  mkService vaultService_Hash vaultService_Validate.
End VaultService.

(** ** Endpoints for the service methods *)

Section MakeEndpoints.
Context {W : Type}.

Definition MakeHashEndpoint (srv : Service W) : Endpoint W :=
  fun ctx request =>
    req <- lift (assert_hashRequest request) ;;
    ' (v, err) <- Hash srv ctx (hashRequest.Password req) ;;
    match err with
    | Some e => ret (box_hashResponse (hashResponse.mk v (Error e)), None)
    | None => ret (box_hashResponse (hashResponse.mk v ""), None)
    end.

Definition MakeValidateEndpoint (srv : Service W) : Endpoint W :=
  fun ctx request =>
    req <- lift (assert_validateRequest request) ;;
    ' (v, err) <- Validate srv ctx (validateRequest.Password req)
                                   (validateRequest.Hash req) ;;
    match err with
    | Some e =>
        ret (box_validateResponse (validateResponse.mk false (Error e)), None)
    | None => ret (box_validateResponse (validateResponse.mk v ""), None)
    end.

(** The aggregate and its two methods, which make it a [Service]. *)
Record Endpoints : Type := mkEndpoints {
  HashEndpoint : Endpoint W;
  ValidateEndpoint : Endpoint W
}.

Definition Endpoints_Hash (e : Endpoints) (ctx : Context) (password : string)
  : M W (string * option error) :=
  let req := hashRequest.mk password in
  ' (resp, err) <- HashEndpoint e ctx (box_hashRequest req) ;;
  match err with
  | Some err' => ret ("", Some err')
  | None =>
      hashResp <- lift (assert_hashResponse resp) ;;
      if negb (hashResponse.Err hashResp =? "")
      then ret ("", Some (errors_New (hashResponse.Err hashResp)))
      else ret (hashResponse.Hash hashResp, None)
  end.

Definition Endpoints_Validate (e : Endpoints) (ctx : Context)
           (password hash : string) : M W (bool * option error) :=
  let req := validateRequest.mk password hash in
  ' (resp, err) <- ValidateEndpoint e ctx (box_validateRequest req) ;;
  match err with
  | Some err' => ret (false, Some err')
  | None =>
      validateResp <- lift (assert_validateResponse resp) ;;
      if negb (validateResponse.Err validateResp =? "")
      then ret (false, Some (errors_New (validateResponse.Err validateResp)))
      else ret (validateResponse.Valid validateResp, None)
  end.

(** [Endpoints] used where a [Service] is expected. *)
Definition Endpoints_Service (e : Endpoints) : Service W :=
  mkService (Endpoints_Hash e) (Endpoints_Validate e).

(** The wiring of [main]: both endpoints made from one service. *)
Definition endpoints_of (srv : Service W) : Endpoints :=
  mkEndpoints (MakeHashEndpoint srv) (MakeValidateEndpoint srv).
End MakeEndpoints.
Arguments Endpoints W : clear implicits.

(** A call that ran to its end and reported a Go error. *)
Definition failed {W A : Type} (r : result ((A * option error) * W)) : bool :=
  match r with
  | Ok ((_, Some _), _) => true
  | _ => false
  end.

(** ** gRPC codecs (server_grpc.go) *)

Definition EncodeGRPCHashRequest (ctx : Context) (r : any)
  : result (any * option error) :=
  rbind (assert_hashRequest r) (fun req =>
  Ok (box_pbHashRequest
        (Some (pb.HashRequest.mk (hashRequest.Password req))), None)).

Definition DecodeGRPCHashRequest (ctx : Context) (r : any)
  : result (any * option error) :=
  rbind (assert_pbHashRequest r) (fun p =>
  rbind (deref p) (fun req =>
  Ok (box_hashRequest (hashRequest.mk (pb.HashRequest.Password req)), None))).

Definition EncodeGRPCHashResponse (ctx : Context) (r : any)
  : result (any * option error) :=
  rbind (assert_hashResponse r) (fun res =>
  Ok (box_pbHashResponse
        (Some (pb.HashResponse.mk (hashResponse.Hash res)
                                  (hashResponse.Err res))), None)).

Definition DecodeGRPCHashResponse (ctx : Context) (r : any)
  : result (any * option error) :=
  rbind (assert_pbHashResponse r) (fun p =>
  rbind (deref p) (fun res =>
  Ok (box_hashResponse
        (hashResponse.mk (pb.HashResponse.Hash res)
                         (pb.HashResponse.Err res)), None))).

Definition EncodeGRPCValidateRequest (ctx : Context) (r : any)
  : result (any * option error) :=
  rbind (assert_validateRequest r) (fun req =>
  Ok (box_pbValidateRequest
        (Some (pb.ValidateRequest.mk (validateRequest.Password req)
                                     (validateRequest.Hash req))), None)).

Definition DecodeGRPCValidateRequest (ctx : Context) (r : any)
  : result (any * option error) :=
  rbind (assert_pbValidateRequest r) (fun p =>
  rbind (deref p) (fun req =>
  Ok (box_validateRequest
        (validateRequest.mk (pb.ValidateRequest.Password req)
                            (pb.ValidateRequest.Hash req)), None))).

(** [&pb.ValidateResponse{Valid: res.Valid}]: only [Valid] is written. *)
Definition EncodeGRPCValidateResponse (ctx : Context) (r : any)
  : result (any * option error) :=
  rbind (assert_validateResponse r) (fun res =>
  Ok (box_pbValidateResponse
        (Some (pb.ValidateResponse.mk (validateResponse.Valid res))), None)).

(** [validateResponse{Valid: res.Valid}]: [Err] keeps its zero value. *)
Definition DecodeGRPCValidateResponse (ctx : Context) (r : any)
  : result (any * option error) :=
  rbind (assert_pbValidateResponse r) (fun p =>
  rbind (deref p) (fun res =>
  Ok (box_validateResponse
        (validateResponse.mk (pb.ValidateResponse.Valid res) ""), None))).

(** Encoding then decoding, as a response travels from server to client:
    the decoder runs on what the encoder produced when the encoder
    reported no error. *)
Definition through_wire (enc dec : Context -> any -> result (any * option error))
           (ctx : Context) (r : any) : result (any * option error) :=
  rbind (enc ctx r) (fun '(wire, err) =>
  match err with
  | Some e => Ok (nil_interface, Some e)
  | None => dec ctx wire
  end).

(** ** HTTP request decoders *)

(** [*http.Request], as far as the decoders look at it. *)
Record http_Request : Type := mk_http_Request { Body : list byte }.

(** [json.NewDecoder(r.Body).Decode(&req)] of [encoding/json], at the two
    request types: given the body and the value [req] points to, the value
    after the call and the error returned. *)
Class JSONDecoder : Type := {
  Decode_hashRequest :
    list byte -> hashRequest.t -> hashRequest.t * option error;
  Decode_validateRequest :
    list byte -> validateRequest.t -> validateRequest.t * option error
}.

Section HTTPDecoders.
Context {json : JSONDecoder}.

Definition decodeHashRequest (ctx : Context) (r : http_Request)
  : any * option error :=
  let '(req, err) := Decode_hashRequest (Body r) (hashRequest.mk "") in
  match err with
  | Some e => (nil_interface, Some e)
  | None => (box_hashRequest req, None)
  end.

Definition decodeValidateRequest (ctx : Context) (r : http_Request)
  : any * option error :=
  let '(req, err) :=
    Decode_validateRequest (Body r) (validateRequest.mk "" "") in
  match err with
  | Some e => (nil_interface, Some e)
  | None => (box_validateRequest req, None)
  end.
End HTTPDecoders.

(** What a handler hands back to its transport. *)
Inductive served : Type :=
| TransportFailure (e : error)
| Payload (response : any).

(** Modelled from the spec: the handler that [httptransport.NewServer]
    builds (go-kit, not part of the sources), following the data flow
    "wire request, transport decode, generic request value, endpoint,
    generic response value, transport encode": a decode error aborts the
    call before the endpoint, an endpoint error is a transport failure,
    and the response is otherwise encoded as it is. *)
Definition serve {W : Type} (dec : Context -> http_Request -> any * option error)
           (e : Endpoint W) (ctx : Context) (r : http_Request) : M W served :=
  let '(request, err) := dec ctx r in
  match err with
  | Some err' => ret (TransportFailure err')
  | None =>
      ' (response, err2) <- e ctx request ;;
      match err2 with
      | Some err' => ret (TransportFailure err')
      | None => ret (Payload response)
      end
  end.

(** ** Rate limiting *)

(** What the middleware needs of [*ratelimit.Bucket]: [TakeAvailable tb n]
    returns the number of tokens taken and the bucket afterwards. *)
Class TokenBucket (B : Type) : Type := {
  TakeAvailable : B -> Z -> Z * B
}.

Section Limiter.
Context {B W : Type} {bucket : TokenBucket B}.
(** go-kit's [ErrLimited]. *)
Variable ErrLimited : error.

(** The bucket [tb] points to is shared by every call, so it is part of
    the world of the wrapped endpoint. *)
Definition NewTokenBucketLimiter (next : Endpoint W) : Endpoint (B * W) :=
  fun ctx request '(tb, w) =>
    let '(taken, tb') := TakeAvailable tb 1 in
    if (taken =? 0)%Z
    then Ok ((nil_interface, Some ErrLimited), (tb', w))
    else
      match next ctx request w with
      | Ok (r, w') => Ok (r, (tb', w'))
      | Panic msg => Panic msg
      end.
End Limiter.

(** Modelled from the spec: the token bucket of package [ratelimit]
    (juju, not part of the sources), "a shared token-bucket budget": a
    number of available tokens; [TakeAvailable] removes up to [count]
    tokens that are available now and returns how many it removed, zero
    when there is none, without blocking. Refilling over time happens
    between two attempts and is left to the environment. *)
Module ratelimit.
Record Bucket : Type := mkBucket { availableTokens : Z }.

Definition Bucket_TakeAvailable (tb : Bucket) (count : Z) : Z * Bucket :=
  if (count <=? 0)%Z then (0%Z, tb)
  else if (availableTokens tb <=? 0)%Z then (0%Z, tb)
  else
    let c := Z.min count (availableTokens tb) in
    (c, mkBucket (availableTokens tb - c)).
End ratelimit.

#[export] Instance ratelimit_TokenBucket : TokenBucket ratelimit.Bucket :=
  {| TakeAvailable := ratelimit.Bucket_TakeAvailable |}.

(** Tokens one attempt removed from the bucket. *)
Definition consumed (before after : ratelimit.Bucket) : Z :=
  (ratelimit.availableTokens before - ratelimit.availableTokens after)%Z.

(** An endpoint that also counts how often it is invoked. *)
Definition counted {W : Type} (next : Endpoint W) : Endpoint (nat * W) :=
  fun ctx request '(n, w) =>
    match next ctx request w with
    | Ok (r, w') => Ok (r, (S n, w'))
    | Panic msg => Panic msg
    end.

(** ** The process: cmd/vaultd/main.go *)

(** [main] and the goroutines it starts, as the statements that matter for
    when and how the process ends: what blocks, what is sent on [errChan],
    what ends the process. Everything else is a [Local] step. The
    environment supplies the command line, the signals SIGINT and SIGTERM
    and the errors of the listeners. *)
Module vaultd.

(** What the environment can make happen. *)
Inductive trigger : Type :=
| HTTPServeError
| GRPCListenError
| GRPCServeError
| TerminationSignal.

(** The two signals the program registers for. *)
Inductive signal : Type :=
| SIGINT
| SIGTERM.

Definition signo (s : signal) : Z :=
  match s with
  | SIGINT => 2
  | SIGTERM => 15
  end.

(** Statements of a goroutine started by [main]. *)
#[local] Set Warnings "-register-all".
Inductive gstmt : Type :=
| GLocal (what : string)
| GNotify
    (* [signal.Notify(c, syscall.SIGINT, syscall.SIGTERM)] *)
| GRecvSignal
    (* [<-c]: blocks until a signal has been put into [c] *)
| GAwait (t : trigger)
    (* a call that returns only once the environment produces [t]:
       [http.ListenAndServe], [gRPCServer.Serve] *)
| GFallible (t : trigger) (on_err : list gstmt)
    (* [x, err := call(); if err != nil { on_err }] *)
| GSend
    (* [errChan <- v]; the channel is unbuffered *)
| GReturn.

(** Statements of [main] itself. *)
Inductive stmt : Type :=
| Local (what : string)
| FlagParse
    (* [flag.Parse()]: with the default flag set a command line it
       rejects ends the process *)
| Go (body : list gstmt)
| RecvErrChan
| Fatalln.

Definition signal_goroutine : list gstmt :=
  [ GLocal "c := make(chan os.Signal, 1)";
    GNotify;
    GRecvSignal;
    GSend ].

Definition http_goroutine : list gstmt :=
  [ GLocal "log.Println(http:, *httpAddr)";
    GLocal "handler := vault.NewHTTPServer(ctx, endpoints)";
    GAwait HTTPServeError;
    GSend ].

Definition grpc_goroutine : list gstmt :=
  [ GFallible GRPCListenError [GSend; GReturn];
    GLocal "log.Println(grpc:, *gRPCAddr)";
    GLocal "handler := vault.NewGRPCServer(ctx, endpoints)";
    GLocal "gRPCServer := grpc.NewServer()";
    GLocal "pb.RegisterVaultServer(gRPCServer, handler)";
    GAwait GRPCServeError;
    GSend ].

(** The body of [main], statement by statement. *)
Definition main : list stmt :=
  [ Local "httpAddr = flag.String(http, :8080, ...)";
    Local "gRPCAddr = flag.String(grpc, :8081, ...)";
    FlagParse;
    Local "ctx := context.Background()";
    Local "srv := Vault.NewService()";
    Local "errChan := make(chan error)";
    Go signal_goroutine;
    Local "hashEndpoint := vault.MakeHashEndpoint(srv)";
    Local "validateEndpoint := vault.MakeValidateEndpoint(srv)";
    Local "endpoints := vault.Endpoints{...}";
    Go http_goroutine;
    Go grpc_goroutine ].

(** A running process. [exit] is [None] while it runs and the exit status
    afterwards (for a process a signal killed, the status a shell reports:
    128 plus the number of the signal); [fired] lists the triggers that
    have occurred, last first; [delivered] counts the values received from
    [errChan]; [notified] tells whether [signal.Notify] has run and
    [pending] how many signals wait in the channel [c], which holds one. *)
Record process : Type := mkProcess {
  main_k : list stmt;
  goroutines : list (list gstmt);
  notified : bool;
  pending : nat;
  fired : list trigger;
  delivered : nat;
  exit : option Z
}.

Definition start (prog : list stmt) : process :=
  mkProcess prog [] false 0 [] 0 None.

(** What happens next is chosen by the scheduler and the environment:
    [main] or a goroutine runs a step, a goroutine and [main] meet on
    [errChan], a signal arrives, or the command line turns out to be one
    [flag.Parse] rejects ([-h] when [help] is true, an undefined flag or a
    missing value otherwise). *)
Inductive choice : Type :=
| RunMain
| RunGo (i : nat) (fails : bool)
| Rendezvous (i : nat)
| Signal (s : signal)
| BadFlags (help : bool).

Fixpoint set_nth {A : Type} (i : nat) (x : A) (l : list A) : list A :=
  match l, i with
  | [], _ => []
  | _ :: tl, O => x :: tl
  | hd :: tl, S j => hd :: set_nth j x tl
  end.

Definition with_main (k : list stmt) (p : process) : process :=
  mkProcess k (goroutines p) (notified p) (pending p) (fired p)
            (delivered p) None.

Definition with_goroutine (i : nat) (g : list gstmt) (p : process) : process :=
  mkProcess (main_k p) (set_nth i g (goroutines p)) (notified p) (pending p)
            (fired p) (delivered p) None.

Definition with_trigger (t : trigger) (p : process) : process :=
  mkProcess (main_k p) (goroutines p) (notified p) (pending p)
            (t :: fired p) (delivered p) (exit p).

Definition exited (status : Z) (p : process) : process :=
  mkProcess (main_k p) (goroutines p) (notified p) (pending p) (fired p)
            (delivered p) (Some status).

(** One step of [main]: a local step, [flag.Parse] accepting the command
    line, starting a goroutine, leaving through [log.Fatalln] (status 1)
    or by returning (status 0; the process ends when [main] returns,
    whatever the goroutines do). A receive alone does not step: it needs a
    sender. *)
Definition step_main (p : process) : process :=
  match main_k p with
  | [] => exited 0 p
  | Local _ :: k => with_main k p
  | FlagParse :: k => with_main k p
  | Go body :: k =>
      mkProcess k (goroutines p ++ [body])%list (notified p) (pending p)
                (fired p) (delivered p) None
  | RecvErrChan :: _ => p
  | Fatalln :: k => exited 1 (with_main k p)
  end.

(** [flag.Parse] on a command line it rejects: the flag set of package
    [flag] exits on error, with status 0 after printing the usage for
    [-h] and with status 2 otherwise. *)
Definition step_bad_flags (help : bool) (p : process) : process :=
  match main_k p with
  | FlagParse :: _ => exited (if help then 0 else 2) p
  | _ => p
  end.

(** A SIGINT or SIGTERM arrives. Before [signal.Notify] has run it kills
    the process; afterwards it is put into [c] if there is room and
    dropped otherwise. *)
Definition step_signal (s : signal) (p : process) : process :=
  if notified p
  then mkProcess (main_k p) (goroutines p) true
                 (if (pending p <? 1)%nat then 1 else pending p)
                 (TerminationSignal :: fired p) (delivered p) None
  else exited (128 + signo s) (with_trigger TerminationSignal p).

(** One step of goroutine [i]. A send alone does not step: the channel
    has no buffer and needs a receiver. *)
Definition step_go (i : nat) (fails : bool) (p : process) : process :=
  match nth_error (goroutines p) i with
  | None => p
  | Some g =>
      match g with
      | [] => p
      | GLocal _ :: k => with_goroutine i k p
      | GNotify :: k =>
          mkProcess (main_k p) (set_nth i k (goroutines p)) true (pending p)
                    (fired p) (delivered p) None
      | GRecvSignal :: k =>
          if (1 <=? pending p)%nat
          then mkProcess (main_k p) (set_nth i k (goroutines p)) (notified p)
                         (pending p - 1) (fired p) (delivered p) None
          else p
      | GAwait t :: k => with_trigger t (with_goroutine i k p)
      | GFallible t on_err :: k =>
          if fails
          then with_trigger t (with_goroutine i (on_err ++ k)%list p)
          else with_goroutine i k p
      | GSend :: _ => p
      | GReturn :: _ => with_goroutine i [] p
      end
  end.

(** Goroutine [i] sends on [errChan] while [main] receives from it. *)
Definition step_rendezvous (i : nat) (p : process) : process :=
  match main_k p, nth_error (goroutines p) i with
  | RecvErrChan :: k, Some (GSend :: g) =>
      mkProcess k (set_nth i g (goroutines p)) (notified p) (pending p)
                (fired p) (S (delivered p)) None
  | _, _ => p
  end.

Definition step (c : choice) (p : process) : process :=
  match exit p with
  | Some _ => p
  | None =>
      match c with
      | RunMain => step_main p
      | RunGo i fails => step_go i fails p
      | Rendezvous i => step_rendezvous i p
      | Signal s => step_signal s p
      | BadFlags help => step_bad_flags help p
      end
  end.

Definition run (schedule : list choice) (p : process) : process :=
  fold_left (fun q c => step c q) schedule p.

(** A schedule in which [flag.Parse] accepts the command line. *)
Definition flags_accepted (schedule : list choice) : bool :=
  forallb (fun c => match c with BadFlags _ => false | _ => true end)
          schedule.

(** A schedule with an accepted command line and no signal; the
    listeners may fail in it at any time. *)
Definition no_signal (schedule : list choice) : bool :=
  forallb (fun c => match c with
                    | BadFlags _ | Signal _ => false
                    | _ => true
                    end) schedule.

(** The property of the specification, for a program [prog] as [main]:
    on an accepted command line, whenever the process has ended, a
    trigger has occurred and the exit status is not zero. *)
Definition waits_for_trigger (prog : list stmt) : Prop :=
  forall schedule status,
    flags_accepted schedule = true ->
    exit (run schedule (start prog)) = Some status ->
    status <> 0%Z /\ fired (run schedule (start prog)) <> [].

(** [main] followed by [log.Fatalln(<-errChan)]. *)
Definition main_then_wait : list stmt :=
  (main ++ [RecvErrChan; Fatalln])%list.

(** *** Invariants of the two programs *)

(** Statements that neither receive from [errChan] nor call
    [log.Fatalln]. *)
Definition plain (s : stmt) : bool :=
  match s with
  | RecvErrChan | Fatalln => false
  | Local _ | FlagParse | Go _ => true
  end.

(** The statuses [main] as written can end with: 0 when it returns or
    prints its usage, 2 when [flag.Parse] rejects the command line, 130
    and 143 when SIGINT or SIGTERM kills it. *)
Definition possible_status (status : Z) : Prop :=
  status = 0%Z \/ status = 2%Z \/ status = 130%Z \/ status = 143%Z.

Definition never_received (p : process) : Prop :=
  forallb plain (main_k p) = true
  /\ delivered p = 0
  /\ (forall status, exit p = Some status -> possible_status status).

(** With an accepted command line and no signal, the only way out is the
    return of [main]. *)
Definition calm (p : process) : Prop :=
  forallb plain (main_k p) = true /\ (exit p = None \/ exit p = Some 0%Z).

(** A goroutine that does not send before a trigger has occurred. *)
Fixpoint quiet (g : list gstmt) : bool :=
  match g with
  | [] => true
  | GLocal _ :: k => quiet k
  | GNotify :: k => quiet k
  | GRecvSignal :: _ => true
  | GAwait _ :: _ => true
  | GFallible _ _ :: k => quiet k
  | GSend :: _ => false
  | GReturn :: _ => true
  end.

Definition quiet_stmt (s : stmt) : bool :=
  match s with
  | Go body => quiet body
  | Local _ | FlagParse => true
  | RecvErrChan | Fatalln => false
  end.

Definition main_waiting (p : process) : Prop :=
  (exists k, main_k p = (k ++ [RecvErrChan; Fatalln])%list
             /\ forallb quiet_stmt k = true
             /\ exit p = None)
  \/ (main_k p = [Fatalln] /\ fired p <> [] /\ exit p = None)
  \/ (exists status, exit p = Some status /\ status <> 0%Z /\ fired p <> []).

Definition goroutines_quiet (p : process) : Prop :=
  fired p <> [] \/ forall g, In g (goroutines p) -> quiet g = true.

Definition signals_counted (p : process) : Prop :=
  0 < pending p -> fired p <> [].

Definition waiting (p : process) : Prop :=
  main_waiting p /\ goroutines_quiet p /\ signals_counted p.

End vaultd.


(** ** Instances used to run the definitions *)

(** A small executable instance of the [Bcrypt] interface. It is not the
    Blowfish-based function: the digest is the salt followed by the password
    reversed, the world is a counter the salt is drawn from. It has the
    interface and the error values of the package, which is what the
    statements below are run on. *)
Module RefBcrypt.
Definition ErrPasswordTooLong : error :=
  pkgError "bcrypt" "bcrypt: password length exceeds 72 bytes".
Definition ErrMismatchedHashAndPassword : error :=
  pkgError "bcrypt"
           "crypto/bcrypt: hashedPassword is not the hash of the given password".
Definition ErrHashTooShort : error :=
  pkgError "bcrypt"
           "crypto/bcrypt: hashedSecret too short to be a bcrypted password".

Definition salt_of (w : nat) : byte :=
  match Byte.of_nat (w mod 256) with
  | Some b => b
  | None => x00
  end.

Definition digest (password : list byte) : list byte := rev password.

Fixpoint bytes_eqb (a b : list byte) : bool :=
  match a, b with
  | [], [] => true
  | x :: a', y :: b' => Byte.eqb x y && bytes_eqb a' b'
  | _, _ => false
  end.

Definition generate (password : list byte) (cost : Z) (w : nat)
  : (list byte * option error) * nat :=
  if (72 <? length password)%nat
  then (([], Some ErrPasswordTooLong), w)
  else ((salt_of w :: digest password, None), S w).

Definition compare (hashedPassword password : list byte) : option error :=
  match hashedPassword with
  | [] => Some ErrHashTooShort
  | _ :: d =>
      if bytes_eqb d (digest password) then None
      else Some ErrMismatchedHashAndPassword
  end.
End RefBcrypt.

Definition refBcrypt : Bcrypt nat :=
  {| GenerateFromPassword := RefBcrypt.generate;
     CompareHashAndPassword := RefBcrypt.compare |}.

(** A [Service] that breaks the convention of returning the zero value next
    to an error: its methods hand back a result with their failure. *)
Definition partialHasher : Service unit :=
  mkService
    (fun _ _ => ret ("partial", Some (errors_New "entropy source closed")))
    (fun _ _ _ => ret (true, Some (errors_New "entropy source closed"))).

(** A [Service] whose failures carry the empty message. *)
Definition silentFailure : Service unit :=
  mkService
    (fun _ _ => ret ("", Some (errors_New "")))
    (fun _ _ _ => ret (false, Some (errors_New ""))).

(** A [Service] that does both: a result next to a failure without a
    message. *)
Definition silentPartial : Service unit :=
  mkService
    (fun _ _ => ret ("partial", Some (errors_New "")))
    (fun _ _ _ => ret (true, Some (errors_New ""))).

(** A [Service] that fails with a message on every call. *)
Definition failingService : Service unit :=
  mkService
    (fun _ _ => ret ("", Some (errors_New "hasher unavailable")))
    (fun _ _ _ => ret (false, Some (errors_New "hasher unavailable"))).

(** An endpoint that echoes its request. *)
Definition echoEndpoint : Endpoint unit :=
  fun _ request => ret (request, None).

(** A decoder for bodies of the one form [{"password":"..."}] (and the
    two-field form for validate requests), enough to run the HTTP decoders
    on; it is an instance of the interface, not [encoding/json]. *)
Module RefJSON.
Definition SyntaxError : error :=
  pkgError "json" "invalid character looking for beginning of value".

Fixpoint strip_prefix (pre s : string) : option string :=
  match pre, s with
  | EmptyString, _ => Some s
  | String a pre', String b s' =>
      if Ascii.eqb a b then strip_prefix pre' s' else None
  | String _ _, EmptyString => None
  end.

(** The text up to the next double quote, and what follows the quote. *)
Fixpoint until_quote (s : string) : option (string * string) :=
  match s with
  | EmptyString => None
  | String c s' =>
      if Ascii.eqb c (Ascii.ascii_of_nat 34) then Some (EmptyString, s')
      else
        match until_quote s' with
        | Some (v, rest) => Some (String c v, rest)
        | None => None
        end
  end.

Definition quote : string := String (Ascii.ascii_of_nat 34) EmptyString.

Definition field (name : string) (s : string) : option (string * string) :=
  match strip_prefix (quote ++ name ++ quote ++ ":" ++ quote) s with
  | Some rest => until_quote rest
  | None => None
  end.

Definition decode_hash (body : list byte) (req : hashRequest.t)
  : hashRequest.t * option error :=
  match strip_prefix "{" (string_of_list_byte body) with
  | Some s =>
      match field "password" s with
      | Some (pw, rest) =>
          match strip_prefix "}" rest with
          | Some _ => (hashRequest.mk pw, None)
          | None => (hashRequest.mk pw, Some SyntaxError)
          end
      | None => (req, Some SyntaxError)
      end
  | None => (req, Some SyntaxError)
  end.

Definition decode_validate (body : list byte) (req : validateRequest.t)
  : validateRequest.t * option error :=
  match strip_prefix "{" (string_of_list_byte body) with
  | Some s =>
      match field "password" s with
      | Some (pw, rest) =>
          match strip_prefix "," rest with
          | Some rest' =>
              match field "hash" rest' with
              | Some (h, rest'') =>
                  match strip_prefix "}" rest'' with
                  | Some _ => (validateRequest.mk pw h, None)
                  | None => (validateRequest.mk pw h, Some SyntaxError)
                  end
              | None => (validateRequest.mk pw "", Some SyntaxError)
              end
          | None => (validateRequest.mk pw "", Some SyntaxError)
          end
      | None => (req, Some SyntaxError)
      end
  | None => (req, Some SyntaxError)
  end.
End RefJSON.

Definition refJSON : JSONDecoder :=
  {| Decode_hashRequest := RefJSON.decode_hash;
     Decode_validateRequest := RefJSON.decode_validate |}.


(** Requests to run the decoders on. *)
Definition body_of (s : string) : http_Request :=
  mk_http_Request (list_byte_of_string s).

Definition json_password (pw : string) : string :=
  "{" ++ RefJSON.quote ++ "password" ++ RefJSON.quote ++ ":"
      ++ RefJSON.quote ++ pw ++ RefJSON.quote ++ "}".

(** ** The gRPC server and client (server_grpc.go) *)

(** [grpctransport.Handler]: the one method [ServeGRPC], without the context
    it also returns, which [grpcServer] discards. *)
Definition Handler (W : Type) : Type :=
  Context -> any -> M W (any * option error).

(** Modelled from the spec: the handler [grpctransport.NewServer] builds
    (go-kit, not part of the sources): "each handler decodes the wire
    message into the generic request shape, invokes the endpoint, and
    encodes the generic response back into the wire message shape". An
    error at one of the three steps ends the call with that error and a
    nil response. The endpoint runs in the context the server was created
    with, the codecs in the context of the call. *)
Definition grpctransport_NewServer {W : Type} (ctx : Context) (e : Endpoint W)
           (dec enc : Context -> any -> result (any * option error))
  : Handler W :=
  fun grpcCtx req =>
    ' (request, err) <- lift (dec grpcCtx req) ;;
    match err with
    | Some err' => ret (nil_interface, Some err')
    | None =>
        ' (response, err2) <- e ctx request ;;
        match err2 with
        | Some err' => ret (nil_interface, Some err')
        | None =>
            ' (grpcResp, err3) <- lift (enc grpcCtx response) ;;
            match err3 with
            | Some err' => ret (nil_interface, Some err')
            | None => ret (grpcResp, None)
            end
        end
    end.

Section GRPCServer.
Context {W : Type}.

Record grpcServer : Type := mk_grpcServer {
  hash : Handler W;
  validate : Handler W
}.

(** The method [Hash] of [*grpcServer]: a [*pb.HashRequest] in, a
    [*pb.HashResponse] and an error out. *)
Definition grpcServer_Hash (s : grpcServer) (ctx : Context)
           (r : option pb.HashRequest.t)
  : M W (option pb.HashResponse.t * option error) :=
  ' (resp, err) <- hash s ctx (box_pbHashRequest r) ;;
  match err with
  | Some err' => ret (None, Some err')
  | None =>
      p <- lift (assert_pbHashResponse resp) ;;
      ret (p, None)
  end.

Definition grpcServer_Validate (s : grpcServer) (ctx : Context)
           (r : option pb.ValidateRequest.t)
  : M W (option pb.ValidateResponse.t * option error) :=
  ' (resp, err) <- validate s ctx (box_pbValidateRequest r) ;;
  match err with
  | Some err' => ret (None, Some err')
  | None =>
      p <- lift (assert_pbValidateResponse resp) ;;
      ret (p, None)
  end.

Definition NewGRPCServer (ctx : Context) (endpoints : Endpoints W)
  : grpcServer :=
  mk_grpcServer
    (grpctransport_NewServer ctx (HashEndpoint endpoints)
                             DecodeGRPCHashRequest EncodeGRPCHashResponse)
    (grpctransport_NewServer ctx (ValidateEndpoint endpoints)
                             DecodeGRPCValidateRequest
                             EncodeGRPCValidateResponse).

(** Modelled from the spec: the endpoint of [grpctransport.NewClient]
    (go-kit, not part of the sources): "constructing a client wraps a
    method-specific remote call behind the same endpoint abstraction, using
    matching encode-request/decode-response function pairs". [invoke] is
    the remote method behind the connection; an error of the encoder, of
    the call or of the decoder ends the call with a nil response. *)
Definition grpctransport_ClientEndpoint
           (invoke : Context -> any -> M W (any * option error))
           (enc dec : Context -> any -> result (any * option error))
  : Endpoint W :=
  fun ctx request =>
    ' (req, err) <- lift (enc ctx request) ;;
    match err with
    | Some err' => ret (nil_interface, Some err')
    | None =>
        ' (grpcReply, err2) <- invoke ctx req ;;
        match err2 with
        | Some err' => ret (nil_interface, Some err')
        | None =>
            ' (response, err3) <- lift (dec ctx grpcReply) ;;
            match err3 with
            | Some err' => ret (nil_interface, Some err')
            | None => ret (response, None)
            end
        end
    end.

(** The two methods of the service [Vault] as a connection offers them:
    a request message in, a reply message or an error out. *)
Record ClientConn : Type := mk_ClientConn {
  invoke_Hash : Context -> any -> M W (any * option error);
  invoke_Validate : Context -> any -> M W (any * option error)
}.

(** [grpc.New]: the client, an [Endpoints] value used as a [Service]. *)
Definition New (conn : ClientConn) : Endpoints W :=
  mkEndpoints
    (grpctransport_ClientEndpoint (invoke_Hash conn)
                                  EncodeGRPCHashRequest DecodeGRPCHashResponse)
    (grpctransport_ClientEndpoint (invoke_Validate conn)
                                  EncodeGRPCValidateRequest
                                  DecodeGRPCValidateResponse).

(** Modelled from the spec: a connection to the RPC service [Vault] with
    its "two unary methods", served by a [grpcServer] in the same world: a
    call reaches the method of the server with the message that was sent,
    and its reply or error comes back. *)
Definition connect (s : grpcServer) : ClientConn :=
  mk_ClientConn
    (fun ctx req =>
       p <- lift (assert_pbHashRequest req) ;;
       ' (resp, err) <- grpcServer_Hash s ctx p ;;
       ret (box_pbHashResponse resp, err))
    (fun ctx req =>
       p <- lift (assert_pbValidateRequest req) ;;
       ' (resp, err) <- grpcServer_Validate s ctx p ;;
       ret (box_pbValidateResponse resp, err)).
End GRPCServer.
Arguments grpcServer W : clear implicits.
Arguments ClientConn W : clear implicits.

(** The eight codecs of [server_grpc.go]. *)
Definition codecs : list (Context -> any -> result (any * option error)) :=
  [ EncodeGRPCHashRequest; DecodeGRPCHashRequest;
    EncodeGRPCHashResponse; DecodeGRPCHashResponse;
    EncodeGRPCValidateRequest; DecodeGRPCValidateRequest;
    EncodeGRPCValidateResponse; DecodeGRPCValidateResponse ].

(** The wiring [main] describes for the rate limiter: each endpoint of
    the aggregate wrapped by the middleware, over one bucket. *)
Definition limited {B W : Type} {bucket : TokenBucket B}
           (ErrLimited : error) (e : Endpoints W) : Endpoints (B * W) :=
  mkEndpoints (NewTokenBucketLimiter ErrLimited (HashEndpoint e))
              (NewTokenBucketLimiter ErrLimited (ValidateEndpoint e)).

(** The message a response carries for an error. *)
Definition message_of (err : option error) : string :=
  match err with
  | Some e => Error e
  | None => ""
  end.

(** ** Sequences of calls *)

(** [k] calls of an endpoint one after the other, with their results. *)
Fixpoint call_times {W : Type} (k : nat) (e : Endpoint W) (ctx : Context)
         (request : any) : M W (list (any * option error)) :=
  match k with
  | O => ret []
  | S k' =>
      r <- e ctx request ;;
      rs <- call_times k' e ctx request ;;
      ret (r :: rs)
  end.

(** An endpoint that returns on every call. *)
Definition returns_always {W : Type} (e : Endpoint W) : Prop :=
  forall ctx request w, exists r w', e ctx request w = Ok (r, w').

(** How often a schedule lets [main] run. *)
Definition runs_of_main (schedule : list vaultd.choice) : nat :=
  length (filter (fun c => match c with vaultd.RunMain => true | _ => false end)
                 schedule).

(** ** encoding/json: the decoder behind the HTTP request decoders *)

(** Modelled from the spec: "decode body as JSON into HashRequest", with
    the behaviour of [json.NewDecoder(r.Body).Decode(&req)] of Go's
    standard library, which is not part of the sources. [Decode] reads the
    first JSON value of the stream, checked byte by byte by the scanner of
    the package, and leaves what follows it unread; it then stores the
    value into the struct: [null] stores nothing, an object stores the
    members whose key is the name of a field (exactly, or else up to case)
    and skips the others, and a value of a kind that does not fit is a
    type error, kept while the remaining members are stored. Error
    messages are abbreviated: the kind of the error and its context,
    without the offending character, the offset and the Go type. *)
Module encoding_json.
Local Open Scope N_scope.

(** A JSON value as the scanner delimits it. Strings and keys are kept as
    the bytes between their quotes, numbers as their literal. *)
#[local] Set Warnings "-register-all".
Inductive value : Type :=
| JNull
| JBool (b : bool)
| JNumber (literal : list N)
| JString (raw : list N)
| JArray (items : list value)
| JObject (members : list (list N * value)).

(** The stack of the scanner ([parseState]), with what has been read of
    each open array and object. *)
Inductive frame : Type :=
| FArr (items : list value)
    (* [parseArrayValue]; the items are in reverse *)
| FKey (members : list (list N * value))
    (* [parseObjectKey], key not read yet *)
| FKeyRead (members : list (list N * value)) (key : list N)
    (* [parseObjectKey], key read, a colon is next *)
| FVal (members : list (list N * value)) (key : list N)
    (* [parseObjectValue], value not read yet *)
| FValRead (members : list (list N * value)).
    (* [parseObjectValue], member read, a comma or a brace is next *)

(** The step functions of the scanner, with the bytes read so far of a
    string or a number (in reverse). *)
Inductive state : Type :=
| BeginValue
| BeginValueOrEmpty
| BeginStringOrEmpty
| BeginString
| EndValue
| InString (acc : list N)
| InStringEsc (acc : list N)
| InStringEscU (todo : nat) (acc : list N)
| Neg (acc : list N)
| Zero (acc : list N)
| One (acc : list N)
| Dot (acc : list N)
| Dot0 (acc : list N)
| Exp (acc : list N)
| ExpSign (acc : list N)
| Exp0 (acc : list N)
| Lit (expected : list N) (v : value).

Inductive outcome : Type :=
| Continue (st : state) (stack : list frame)
| Done (v : value) (consumed : bool)
    (* the top-level value is complete; [consumed] tells whether the
       current byte belongs to it *)
| Invalid (context : string).

(** [maxNestingDepth]. *)
Definition maxNestingDepth : N := 10000.

Definition isSpace (c : N) : bool :=
  (c =? 32) || (c =? 9) || (c =? 13) || (c =? 10).

Definition isDigit (c : N) : bool := (48 <=? c) && (c <=? 57).

Definition isHex (c : N) : bool :=
  isDigit c || ((97 <=? c) && (c <=? 102)) || ((65 <=? c) && (c <=? 70)).

(** A value inside an array or an object is complete: it joins its
    container. *)
Definition attach (v : value) (stack : list frame) : option (list frame) :=
  match stack with
  | FArr items :: st => Some (FArr (v :: items) :: st)
  | FVal members key :: st => Some (FValRead ((key, v) :: members) :: st)
  | _ => None
  end.

(** A value is complete at a byte that belongs to it (a closing quote,
    bracket or brace, the last letter of a literal). *)
Definition complete (v : value) (stack : list frame) : outcome :=
  match stack with
  | [] => Done v true
  | _ =>
      match attach v stack with
      | Some stack' => Continue EndValue stack'
      | None => Invalid "scanner in an impossible state"%string
      end
  end.

Definition push (f : frame) (next : state) (stack : list frame) : outcome :=
  if N.of_nat (length stack) <? maxNestingDepth
  then Continue next (f :: stack)
  else Invalid "exceeded max depth"%string.

(** [stateEndValue] below the top level. *)
Definition end_value (stack : list frame) (c : N) : outcome :=
  match stack with
  | FKeyRead members key :: st =>
      if isSpace c then Continue EndValue stack
      else if c =? 58 (* colon *) then Continue BeginValue (FVal members key :: st)
      else Invalid "after object key"%string
  | FValRead members :: st =>
      if isSpace c then Continue EndValue stack
      else if c =? 44 (* comma *) then Continue BeginString (FKey members :: st)
      else if c =? 125 (* closing brace *)
           then complete (JObject (rev members)) st
      else Invalid "after object key:value pair"%string
  | FArr items :: st =>
      if isSpace c then Continue EndValue stack
      else if c =? 44 then Continue BeginValue stack
      else if c =? 93 (* closing bracket *)
           then complete (JArray (rev items)) st
      else Invalid "after array element"%string
  | _ => Invalid "scanner in an impossible state"%string
  end.

(** A number is complete at a byte that does not belong to it: at the top
    level the value ends before that byte, inside a container the byte is
    read by [stateEndValue]. *)
Definition complete_number (acc : list N) (stack : list frame) (c : N)
  : outcome :=
  match stack with
  | [] => Done (JNumber (rev acc)) false
  | _ =>
      match attach (JNumber (rev acc)) stack with
      | Some stack' => end_value stack' c
      | None => Invalid "scanner in an impossible state"%string
      end
  end.

(** [stateBeginValue]. *)
Definition begin_value (stack : list frame) (c : N) : outcome :=
  if isSpace c then Continue BeginValue stack
  else if c =? 123 (* opening brace *)
       then push (FKey []) BeginStringOrEmpty stack
  else if c =? 91 (* opening bracket *)
       then push (FArr []) BeginValueOrEmpty stack
  else if c =? 34 (* quote *) then Continue (InString []) stack
  else if c =? 45 (* minus *) then Continue (Neg [c]) stack
  else if c =? 48 then Continue (Zero [c]) stack
  else if c =? 116 (* t *) then Continue (Lit [114; 117; 101] (JBool true)) stack
  else if c =? 102 (* f *)
       then Continue (Lit [97; 108; 115; 101] (JBool false)) stack
  else if c =? 110 (* n *) then Continue (Lit [117; 108; 108] JNull) stack
  else if (49 <=? c) && (c <=? 57) then Continue (One [c]) stack
  else Invalid "looking for beginning of value"%string.

(** [stateBeginString]. *)
Definition begin_string (stack : list frame) (c : N) : outcome :=
  if isSpace c then Continue BeginString stack
  else if c =? 34 then Continue (InString []) stack
  else Invalid "looking for beginning of object key string"%string.

(** [state0]: after the integer part of a number. *)
Definition after_integer (acc : list N) (stack : list frame) (c : N)
  : outcome :=
  if c =? 46 (* point *) then Continue (Dot (c :: acc)) stack
  else if (c =? 101) || (c =? 69) (* e, E *) then Continue (Exp (c :: acc)) stack
  else complete_number acc stack c.

(** [stateESign]. *)
Definition exp_sign (acc : list N) (stack : list frame) (c : N) : outcome :=
  if isDigit c then Continue (Exp0 (c :: acc)) stack
  else Invalid "in exponent of numeric literal"%string.

(** One step of the scanner on the byte [c]. *)
Definition scan_step (st : state) (stack : list frame) (c : N) : outcome :=
  match st with
  | BeginValue => begin_value stack c
  | BeginValueOrEmpty =>
      if isSpace c then Continue BeginValueOrEmpty stack
      else if c =? 93 then end_value stack c
      else begin_value stack c
  | BeginStringOrEmpty =>
      if isSpace c then Continue BeginStringOrEmpty stack
      else if c =? 125
           then match stack with
                | FKey members :: st' => complete (JObject (rev members)) st'
                | _ => Invalid "scanner in an impossible state"%string
                end
      else begin_string stack c
  | BeginString => begin_string stack c
  | EndValue => end_value stack c
  | InString acc =>
      if c =? 34
      then match stack with
           | FKey members :: st' =>
               Continue EndValue (FKeyRead members (rev acc) :: st')
           | _ => complete (JString (rev acc)) stack
           end
      else if c =? 92 (* backslash *) then Continue (InStringEsc (c :: acc)) stack
      else if c <? 32 then Invalid "in string literal"%string
      else Continue (InString (c :: acc)) stack
  | InStringEsc acc =>
      if (c =? 98) || (c =? 102) || (c =? 110) || (c =? 114) || (c =? 116)
         || (c =? 92) || (c =? 47) || (c =? 34)
      then Continue (InString (c :: acc)) stack
      else if c =? 117 (* u *) then Continue (InStringEscU 4 (c :: acc)) stack
      else Invalid "in string escape code"%string
  | InStringEscU todo acc =>
      if isHex c
      then match todo with
           | S (S n) => Continue (InStringEscU (S n) (c :: acc)) stack
           | _ => Continue (InString (c :: acc)) stack
           end
      else Invalid "in \u hexadecimal character escape"%string
  | Neg acc =>
      if c =? 48 then Continue (Zero (c :: acc)) stack
      else if (49 <=? c) && (c <=? 57) then Continue (One (c :: acc)) stack
      else Invalid "in numeric literal"%string
  | Zero acc => after_integer acc stack c
  | One acc =>
      if isDigit c then Continue (One (c :: acc)) stack
      else after_integer acc stack c
  | Dot acc =>
      if isDigit c then Continue (Dot0 (c :: acc)) stack
      else Invalid "after decimal point in numeric literal"%string
  | Dot0 acc =>
      if isDigit c then Continue (Dot0 (c :: acc)) stack
      else if (c =? 101) || (c =? 69) then Continue (Exp (c :: acc)) stack
      else complete_number acc stack c
  | Exp acc =>
      if (c =? 43) || (c =? 45) (* plus, minus *)
      then Continue (ExpSign (c :: acc)) stack
      else exp_sign acc stack c
  | ExpSign acc => exp_sign acc stack c
  | Exp0 acc =>
      if isDigit c then Continue (Exp0 (c :: acc)) stack
      else complete_number acc stack c
  | Lit expected v =>
      match expected with
      | e :: rest =>
          if c =? e
          then match rest with
               | [] => complete v stack
               | _ => Continue (Lit rest v) stack
               end
          else Invalid "in literal"%string
      | [] => Invalid "scanner in an impossible state"%string
      end
  end.

(** Errors of [Decode]. *)
Definition EOF : error := pkgError "io" "EOF".
Definition ErrUnexpectedEOF : error := pkgError "io" "unexpected EOF".
Definition syntaxError (context : string) : error :=
  pkgError "json" ("invalid character " ++ context).
Definition UnmarshalTypeError (kind : string) : error :=
  pkgError "json" ("json: cannot unmarshal " ++ kind ++ " into Go value").

(** The input ended: a number at the top level is complete; nothing but
    white space is [io.EOF]; anything else stopped inside a value. *)
Definition at_eof (st : state) (stack : list frame)
  : (value * list N) + error :=
  match st, stack with
  | BeginValue, [] => inr EOF
  | Zero acc, [] | One acc, [] | Dot0 acc, [] | Exp0 acc, [] =>
      inl (JNumber (rev acc), [])
  | _, _ => inr ErrUnexpectedEOF
  end.

(** [readValue]: the scanner runs over the input until the first value
    is complete; the result is the value and the input left unread. *)
Fixpoint scan (st : state) (stack : list frame) (input : list N)
  : (value * list N) + error :=
  match input with
  | [] => at_eof st stack
  | c :: input' =>
      match scan_step st stack c with
      | Continue st' stack' => scan st' stack' input'
      | Done v true => inl (v, input')
      | Done v false => inl (v, input)
      | Invalid context => inr (syntaxError context)
      end
  end.

Definition first_value (input : list N) : (value * list N) + error :=
  scan BeginValue [] input.

(** *** Strings *)

Definition hexval (c : N) : N :=
  if isDigit c then c - 48
  else if (97 <=? c) && (c <=? 102) then c - 87
  else c - 55.

(** [getu4] on four hexadecimal digits. *)
Definition u4 (h1 h2 h3 h4 : N) : N :=
  ((hexval h1 * 16 + hexval h2) * 16 + hexval h3) * 16 + hexval h4.

(** [utf8.EncodeRune]. *)
Definition encode_rune (r : N) : list N :=
  if r <? 128 then [r]
  else if r <? 2048 then [192 + r / 64; 128 + r mod 64]
  else if r <? 65536
       then [224 + r / 4096; 128 + (r / 64) mod 64; 128 + r mod 64]
  else [240 + r / 262144; 128 + (r / 4096) mod 64;
        128 + (r / 64) mod 64; 128 + r mod 64].

(** U+FFFD, [unicode.ReplacementChar], in UTF-8. *)
Definition replacement : list N := [239; 191; 189].

Definition isSurrogate (r : N) : bool := (55296 <=? r) && (r <? 57344).

(** [utf16.DecodeRune]: the code point of a surrogate pair, if it is one. *)
Definition decode_pair (r1 r2 : N) : option N :=
  if (55296 <=? r1) && (r1 <? 56320) && (56320 <=? r2) && (r2 <? 57344)
  then Some ((r1 - 55296) * 1024 + (r2 - 56320) + 65536)
  else None.

Definition isCont (c : N) : bool := (128 <=? c) && (c <=? 191).

(** The range of the second byte of a UTF-8 sequence, by its first. *)
Definition second_ok (c1 c2 : N) : bool :=
  if c1 =? 224 then (160 <=? c2) && (c2 <=? 191)
  else if c1 =? 237 then (128 <=? c2) && (c2 <=? 159)
  else if c1 =? 240 then (144 <=? c2) && (c2 <=? 191)
  else if c1 =? 244 then (128 <=? c2) && (c2 <=? 143)
  else isCont c2.

Definition escaped (c : N) : N :=
  if c =? 98 then 8 else if c =? 102 then 12 else if c =? 110 then 10
  else if c =? 114 then 13 else if c =? 116 then 9 else c.

(** [unquoteBytes], on the bytes between the quotes of a string the
    scanner accepted: escapes are replaced by what they stand for, a
    surrogate that is not half of a pair and every byte that is not part
    of a well-formed UTF-8 sequence by U+FFFD. *)
Fixpoint unquote (s : list N) : list N :=
  match s with
  | [] => []
  | c :: r =>
      if c =? 92 then
        match r with
        | [] => []
        | e :: r1 =>
            if e =? 117 then
              match r1 with
              | h1 :: h2 :: h3 :: h4 :: r5 =>
                  let rr := u4 h1 h2 h3 h4 in
                  if isSurrogate rr then
                    match r5 with
                    | b :: u :: g1 :: g2 :: g3 :: g4 :: r11 =>
                        if (b =? 92) && (u =? 117) && isHex g1 && isHex g2
                           && isHex g3 && isHex g4
                        then match decode_pair rr (u4 g1 g2 g3 g4) with
                             | Some dec => encode_rune dec ++ unquote r11
                             | None => replacement ++ unquote r5
                             end
                        else replacement ++ unquote r5
                    | _ => replacement ++ unquote r5
                    end
                  else encode_rune rr ++ unquote r5
              | _ => []
              end
            else escaped e :: unquote r1
        end
      else if c <? 128 then c :: unquote r
      else if (194 <=? c) && (c <=? 223) then
        match r with
        | c2 :: r2 =>
            if isCont c2 then c :: c2 :: unquote r2
            else replacement ++ unquote r
        | _ => replacement ++ unquote r
        end
      else if (224 <=? c) && (c <=? 239) then
        match r with
        | c2 :: c3 :: r3 =>
            if second_ok c c2 && isCont c3 then c :: c2 :: c3 :: unquote r3
            else replacement ++ unquote r
        | _ => replacement ++ unquote r
        end
      else if (240 <=? c) && (c <=? 244) then
        match r with
        | c2 :: c3 :: c4 :: r4 =>
            if second_ok c c2 && isCont c3 && isCont c4
            then c :: c2 :: c3 :: c4 :: unquote r4
            else replacement ++ unquote r
        | _ => replacement ++ unquote r
        end
      else replacement ++ unquote r
  end.

(** *** Storing into the request structs *)

(** [foldName], as far as a name of ASCII letters can tell: letters are
    put in upper case, and the two letters outside ASCII that fold to an
    ASCII letter, U+017F (long s) and U+212A (Kelvin sign), are replaced
    by it. *)
Fixpoint foldName (key : list N) : list N :=
  match key with
  | [] => []
  | c :: r =>
      match r with
      | c2 :: r2 =>
          if (c =? 197) && (c2 =? 191) then 83 :: foldName r2
          else
            match r2 with
            | c3 :: r3 =>
                if (c =? 226) && (c2 =? 132) && (c3 =? 170)
                then 75 :: foldName r3
                else (if (97 <=? c) && (c <=? 122) then c - 32 else c)
                       :: foldName r
            | [] => (if (97 <=? c) && (c <=? 122) then c - 32 else c)
                      :: foldName r
            end
      | [] => [if (97 <=? c) && (c <=? 122) then c - 32 else c]
      end
  end.

Fixpoint equal_bytes (a b : list N) : bool :=
  match a, b with
  | [], [] => true
  | x :: a', y :: b' => (x =? y) && equal_bytes a' b'
  | _, _ => false
  end.

Definition bytes_of_string (s : string) : list N :=
  map Ascii.N_of_ascii (list_ascii_of_string s).

Definition string_of_bytes (l : list N) : string :=
  string_of_list_ascii (map Ascii.ascii_of_N l).

(** Whether the key of a member names the field with the JSON name
    [name]: exactly, or else up to case. *)
Definition names_field (name : string) (raw_key : list N) : bool :=
  let key := unquote raw_key in
  equal_bytes key (bytes_of_string name)
  || equal_bytes (foldName key) (foldName (bytes_of_string name)).

Definition kind_of (v : value) : string :=
  match v with
  | JNull => "null"
  | JBool _ => "bool"
  | JNumber _ => "number"
  | JString _ => "string"
  | JArray _ => "array"
  | JObject _ => "object"
  end.

(** [saveError]: the first error is the one that is kept. *)
Definition saveError (saved : option error) (e : error) : option error :=
  match saved with
  | Some e0 => Some e0
  | None => Some e
  end.

(** A member stored into a field of type string. *)
Definition store_string (x : value) (old : string) (saved : option error)
  : string * option error :=
  match x with
  | JString raw => (string_of_bytes (unquote raw), saved)
  | JNull => (old, saved)
  | _ => (old, saveError saved (UnmarshalTypeError (kind_of x)))
  end.

Definition store_hashRequest_member (st : hashRequest.t * option error)
           (m : list N * value) : hashRequest.t * option error :=
  let '(req, saved) := st in
  let '(key, x) := m in
  if names_field "password" key
  then let '(s, saved') := store_string x (hashRequest.Password req) saved in
       (hashRequest.mk s, saved')
  else (req, saved).

Definition store_hashRequest (v : value) (req : hashRequest.t)
  : hashRequest.t * option error :=
  match v with
  | JNull => (req, None)
  | JObject members => fold_left store_hashRequest_member members (req, None)
  | _ => (req, Some (UnmarshalTypeError (kind_of v)))
  end.

Definition store_validateRequest_member
           (st : validateRequest.t * option error) (m : list N * value)
  : validateRequest.t * option error :=
  let '(req, saved) := st in
  let '(key, x) := m in
  if names_field "password" key
  then let '(s, saved') :=
         store_string x (validateRequest.Password req) saved in
       (validateRequest.mk s (validateRequest.Hash req), saved')
  else if names_field "hash" key
  then let '(s, saved') := store_string x (validateRequest.Hash req) saved in
       (validateRequest.mk (validateRequest.Password req) s, saved')
  else (req, saved).

Definition store_validateRequest (v : value) (req : validateRequest.t)
  : validateRequest.t * option error :=
  match v with
  | JNull => (req, None)
  | JObject members =>
      fold_left store_validateRequest_member members (req, None)
  | _ => (req, Some (UnmarshalTypeError (kind_of v)))
  end.

(** [Decode] at the two request types. *)
Definition Decode_hash (body : list byte) (req : hashRequest.t)
  : hashRequest.t * option error :=
  match first_value (map Byte.to_N body) with
  | inl (v, _) => store_hashRequest v req
  | inr e => (req, Some e)
  end.

Definition Decode_validate (body : list byte) (req : validateRequest.t)
  : validateRequest.t * option error :=
  match first_value (map Byte.to_N body) with
  | inl (v, _) => store_validateRequest v req
  | inr e => (req, Some e)
  end.

End encoding_json.

Definition goJSON : JSONDecoder :=
  {| Decode_hashRequest := encoding_json.Decode_hash;
     Decode_validateRequest := encoding_json.Decode_validate |}.

(** *** The words of the specification, over the first value of a body *)

Module request_json.
Import encoding_json.

(** "Valid JSON": the body is one JSON value with nothing but white space
    around it. *)
Definition json_text (body : list byte) : bool :=
  match first_value (map Byte.to_N body) with
  | inl (_, rest) => forallb isSpace rest
  | inr _ => false
  end.

(** The members of an object that are named [name] are strings or
    null. *)
Definition field_fits (name : string) (members : list (list N * value))
  : bool :=
  forallb (fun m : list N * value =>
             if names_field name (fst m)
             then match snd m with
                  | JString _ | JNull => true
                  | _ => false
                  end
             else true) members.

(** The field named [name] of the request an object stands for: the
    string of the last member with that name that is a string, and
    [default] when there is none. *)
Definition field_of (name : string) (members : list (list N * value))
           (default : string) : string :=
  fold_left (fun (acc : string) (m : list N * value) =>
               if names_field name (fst m)
               then match snd m with
                    | JString raw => string_of_bytes (unquote raw)
                    | _ => acc
                    end
               else acc) members default.

(** "For the expected request shape": null, or an object whose members
    named after a field are strings or null. *)
Definition fits_hashRequest (v : value) : bool :=
  match v with
  | JNull => true
  | JObject members => field_fits "password" members
  | _ => false
  end.


Definition hashRequest_of (v : value) : hashRequest.t :=
  match v with
  | JObject members => hashRequest.mk (field_of "password" members "")
  | _ => hashRequest.mk ""
  end.


(** The request a body begins with, if its first JSON value is one. *)
Definition begins_with_hashRequest (body : list byte)
  : option hashRequest.t :=
  match first_value (map Byte.to_N body) with
  | inl (v, _) => if fits_hashRequest v then Some (hashRequest_of v) else None
  | inr _ => None
  end.


(** The bytes a JSON value can begin with: a brace, a bracket, a quote,
    a minus sign, a digit, or the first letter of [true], [false] or
    [null]. *)
Definition begins_value (c : N) : bool :=
  (c =? 123)%N || (c =? 91)%N || (c =? 34)%N || (c =? 45)%N
  || ((48 <=? c)%N && (c <=? 57)%N)
  || (c =? 116)%N || (c =? 102)%N || (c =? 110)%N.

(** A byte that stands for itself between the quotes of a string. *)
Definition plain_byte (c : N) : bool :=
  (32 <=? c)%N && (c <? 128)%N && negb (c =? 34)%N && negb (c =? 92)%N.

Definition plain_string (s : string) : bool :=
  forallb plain_byte (bytes_of_string s).

End request_json.

(* ================================================================== *)
(** * Part II: properties *)
(* ================================================================== *)

(** ** Tactics and basic facts *)

Ltac go_unfold :=
  unfold bind, ret, lift, rbind in *; cbn [fst snd] in *.

Ltac inv H := inversion H; subst; clear H.

Lemma string_of_list_byte_nonempty (l : list byte) :
  l <> [] -> string_of_list_byte l <> "".
Proof.
  destruct l as [| b l']; [congruence | intros _; discriminate].
Qed.

Lemma nonempty_eqb_false (s : string) : s <> "" -> (s =? "") = false.
Proof. intros H. apply String.eqb_neq. exact H. Qed.

(** ** What the endpoints compute, in terms of the service *)

Section EndpointEquations.
Context {W : Type}.

Lemma MakeHashEndpoint_eq (srv : Service W) (ctx : Context)
      (password : string) (w : W) :
  MakeHashEndpoint srv ctx (box_hashRequest (hashRequest.mk password)) w
  = match Hash srv ctx password w with
    | Ok ((v, Some e), w') =>
        Ok ((box_hashResponse (hashResponse.mk v (Error e)), None), w')
    | Ok ((v, None), w') =>
        Ok ((box_hashResponse (hashResponse.mk v ""), None), w')
    | Panic msg => Panic msg
    end.
Proof.
  unfold MakeHashEndpoint. go_unfold. cbn.
  destruct (Hash srv ctx password w) as [[[v [e |]] w'] | msg]; reflexivity.
Qed.

Lemma MakeValidateEndpoint_eq (srv : Service W) (ctx : Context)
      (password hash : string) (w : W) :
  MakeValidateEndpoint srv ctx
    (box_validateRequest (validateRequest.mk password hash)) w
  = match Validate srv ctx password hash w with
    | Ok ((v, Some e), w') =>
        Ok ((box_validateResponse (validateResponse.mk false (Error e)), None),
            w')
    | Ok ((v, None), w') =>
        Ok ((box_validateResponse (validateResponse.mk v ""), None), w')
    | Panic msg => Panic msg
    end.
Proof.
  unfold MakeValidateEndpoint. go_unfold. cbn.
  destruct (Validate srv ctx password hash w) as [[[v [e |]] w'] | msg];
    reflexivity.
Qed.

Lemma Endpoints_Hash_eq (e : Endpoints W) (ctx : Context)
      (password : string) (w : W) :
  Endpoints_Hash e ctx password w
  = match HashEndpoint e ctx (box_hashRequest (hashRequest.mk password)) w with
    | Ok ((_, Some err), w') => Ok (("", Some err), w')
    | Ok ((box_hashResponse resp, None), w') =>
        if hashResponse.Err resp =? ""
        then Ok ((hashResponse.Hash resp, None), w')
        else Ok (("", Some (errors_New (hashResponse.Err resp))), w')
    | Ok ((_, None), _) => Panic conversion_panic
    | Panic msg => Panic msg
    end.
Proof.
  unfold Endpoints_Hash. go_unfold.
  destruct (HashEndpoint e ctx _ w) as [[[resp [err |]] w'] | msg];
    [ destruct resp; reflexivity | | reflexivity ].
  destruct resp as [| r | r | r | r | r | r | r | r]; cbn; try reflexivity.
  destruct (hashResponse.Err r =? ""); reflexivity.
Qed.

Lemma Endpoints_Validate_eq (e : Endpoints W) (ctx : Context)
      (password hash : string) (w : W) :
  Endpoints_Validate e ctx password hash w
  = match ValidateEndpoint e ctx
            (box_validateRequest (validateRequest.mk password hash)) w with
    | Ok ((_, Some err), w') => Ok ((false, Some err), w')
    | Ok ((box_validateResponse resp, None), w') =>
        if validateResponse.Err resp =? ""
        then Ok ((validateResponse.Valid resp, None), w')
        else Ok ((false, Some (errors_New (validateResponse.Err resp))), w')
    | Ok ((_, None), _) => Panic conversion_panic
    | Panic msg => Panic msg
    end.
Proof.
  unfold Endpoints_Validate. go_unfold.
  destruct (ValidateEndpoint e ctx _ w) as [[[resp [err |]] w'] | msg];
    [ destruct resp; reflexivity | | reflexivity ].
  destruct resp as [| r | r | r | r | r | r | r | r]; cbn; try reflexivity.
  destruct (validateResponse.Err r =? ""); reflexivity.
Qed.
End EndpointEquations.

(** ** The reference bcrypt instance obeys the contract of the package *)

Lemma bytes_eqb_refl (l : list byte) : RefBcrypt.bytes_eqb l l = true.
Proof.
  induction l as [| b l IH]; simpl; [reflexivity |].
  rewrite IH, andb_true_r. apply Byte.byte_dec_lb. reflexivity.
Qed.

Lemma refBcrypt_compare_generated :
  forall (password : list byte) (cost : Z) (w : nat) (hash : list byte) (w' : nat),
    RefBcrypt.generate password cost w = ((hash, None), w') ->
    RefBcrypt.compare hash password = None.
Proof.
  intros password cost w hash w'. unfold RefBcrypt.generate.
  destruct (72 <? length password)%nat; intros H; inv H.
  simpl. rewrite bytes_eqb_refl. reflexivity.
Qed.

Lemma refBcrypt_generated_nonempty :
  forall (password : list byte) (cost : Z) (w : nat) (hash : list byte) (w' : nat),
    RefBcrypt.generate password cost w = ((hash, None), w') -> hash <> [].
Proof.
  intros password cost w hash w'. unfold RefBcrypt.generate.
  destruct (72 <? length password)%nat; intros H; inv H. discriminate.
Qed.

Lemma refBcrypt_error_has_message :
  forall (password : list byte) (cost : Z) (w : nat) (hash : list byte)
         (e : error) (w' : nat),
    RefBcrypt.generate password cost w = ((hash, Some e), w') -> Error e <> "".
Proof.
  intros password cost w hash e w'. unfold RefBcrypt.generate.
  destruct (72 <? length password)%nat; intros H; inv H. discriminate.
Qed.

(** ** The service *)

Section VaultServiceFacts.
Context {W : Type} {bcrypt : Bcrypt W}.

Lemma vaultService_Hash_ok (ctx : Context) (password h : string) (w w' : W) :
  vaultService_Hash ctx password w = Ok ((h, None), w') ->
  exists hash,
    GenerateFromPassword (list_byte_of_string password) DefaultCost w
      = ((hash, None), w')
    /\ h = string_of_list_byte hash.
Proof.
  unfold vaultService_Hash.
  destruct (GenerateFromPassword _ _ w) as [[hash err] w1].
  destruct err as [e |]; intros H; inv H.
  exists hash. split; reflexivity.
Qed.

Lemma vaultService_Hash_total (ctx : Context) (password : string) (w : W) :
  exists h err w', vaultService_Hash ctx password w = Ok ((h, err), w').
Proof.
  unfold vaultService_Hash.
  destruct (GenerateFromPassword _ _ w) as [[hash err] w1].
  destruct err as [e |]; eauto.
Qed.

(** C3. For every password and every hash, [Validate] of the service
    returns a nil error and leaves the world as it was; whenever the
    comparison of bcrypt reports an error, be it a mismatch or a hash it
    cannot parse, the answer is [(false, nil)]. *)
Theorem vaultService_Validate_nil_error
        (ctx : Context) (password hash : string) (w : W) :
  (exists valid : bool,
      vaultService_Validate ctx password hash w = Ok ((valid, None), w))
  /\ (forall e : error,
         CompareHashAndPassword (list_byte_of_string hash)
                                (list_byte_of_string password) = Some e ->
         vaultService_Validate ctx password hash w = Ok ((false, None), w)).
Proof.
  unfold vaultService_Validate.
  destruct (CompareHashAndPassword _ _) as [e |]; split.
  - exists false. reflexivity.
  - intros _ _. reflexivity.
  - exists true. reflexivity.
  - intros e H. discriminate H.
Qed.

Section Contract.
(** The contract of the package: a hash it generated for a password
    compares equal to that password, whatever the cost and the salt. *)
Hypothesis compare_generated :
  forall (password : list byte) (cost : Z) (w : W) (hash : list byte) (w' : W),
    GenerateFromPassword password cost w = ((hash, None), w') ->
    CompareHashAndPassword hash password = None.

(** C1. For every string [p], if [Hash p] succeeds with hash [h], then
    [Validate p h] returns true (with a nil error), in any context and
    any later world. *)
Theorem vaultService_Validate_Hash
        (ctx : Context) (p h : string) (w w' : W) :
  vaultService_Hash ctx p w = Ok ((h, None), w') ->
  forall (ctx' : Context) (w'' : W),
    vaultService_Validate ctx' p h w'' = Ok ((true, None), w'').
Proof.
  intros Hhash ctx' w''.
  apply vaultService_Hash_ok in Hhash. destruct Hhash as [hash [Hgen ->]].
  unfold vaultService_Validate.
  rewrite list_byte_of_string_of_list_byte.
  rewrite (compare_generated _ _ _ _ _ Hgen). reflexivity.
Qed.
End Contract.

Section WellFormed.
(** Two more facts of the package: a generated hash is not empty (it is
    sixty bytes long), and its errors have a message. *)
Hypothesis generated_nonempty :
  forall (password : list byte) (cost : Z) (w : W) (hash : list byte) (w' : W),
    GenerateFromPassword password cost w = ((hash, None), w') -> hash <> [].
Hypothesis error_has_message :
  forall (password : list byte) (cost : Z) (w : W) (hash : list byte)
         (e : error) (w' : W),
    GenerateFromPassword password cost w = ((hash, Some e), w') ->
    Error e <> "".

(** C6. Every response the endpoints make over the hashing service is
    well formed. The hash endpoint answers with a [hashResponse] and no
    transport error; when the service succeeded its hash is not empty and
    its error is; when the service failed its error is not empty and its
    hash is; the two are never both populated. The validate endpoint
    answers with a [validateResponse] whose error is empty. *)
Theorem endpoint_responses_well_formed
        (ctx : Context) (password hash : string) (w : W) :
  (exists (h : string) (err : option error) (w' : W) (resp : hashResponse.t),
      vaultService_Hash ctx password w = Ok ((h, err), w')
      /\ MakeHashEndpoint NewService ctx
           (box_hashRequest (hashRequest.mk password)) w
         = Ok ((box_hashResponse resp, None), w')
      /\ (err = None ->
          hashResponse.Hash resp <> "" /\ hashResponse.Err resp = "")
      /\ (err <> None ->
          hashResponse.Err resp <> "" /\ hashResponse.Hash resp = "")
      /\ ~ (hashResponse.Hash resp <> "" /\ hashResponse.Err resp <> ""))
  /\ (exists resp : validateResponse.t,
         MakeValidateEndpoint NewService ctx
           (box_validateRequest (validateRequest.mk password hash)) w
         = Ok ((box_validateResponse resp, None), w)
         /\ validateResponse.Err resp = "").
Proof.
  split.
  - rewrite MakeHashEndpoint_eq. cbn [NewService Hash].
    unfold vaultService_Hash.
    destruct (GenerateFromPassword (list_byte_of_string password) DefaultCost w)
      as [[bytes err] w1] eqn:Hgen.
    destruct err as [e |].
    + exists "", (Some e), w1, (hashResponse.mk "" (Error e)). cbn.
      repeat split; try congruence.
      * exact (error_has_message _ _ _ _ _ _ Hgen).
      * intros [Hh _]. congruence.
    + exists (string_of_list_byte bytes), None, w1,
        (hashResponse.mk (string_of_list_byte bytes) ""). cbn.
      repeat split; try congruence.
      * apply string_of_list_byte_nonempty.
        exact (generated_nonempty _ _ _ _ _ Hgen).
      * intros [_ He]. congruence.
  - rewrite MakeValidateEndpoint_eq. cbn [NewService Validate].
    unfold vaultService_Validate.
    destruct (CompareHashAndPassword _ _) as [e |]; cbn.
    + exists (validateResponse.mk false ""). split; reflexivity.
    + exists (validateResponse.mk true ""). split; reflexivity.
Qed.
End WellFormed.
End VaultServiceFacts.

(** Running the service on the reference instance. *)
Example run_Hash :
  vaultService_Hash (bcrypt := refBcrypt) Background "s3cret" 65
  = Ok (("Aterc3s", None), 66).
Proof. reflexivity. Qed.

Example run_Validate_match :
  vaultService_Validate (bcrypt := refBcrypt) Background "s3cret" "Aterc3s" 7
  = Ok ((true, None), 7).
Proof. reflexivity. Qed.

Example run_Validate_mismatch :
  vaultService_Validate (bcrypt := refBcrypt) Background "guess" "Aterc3s" 7
  = Ok ((false, None), 7).
Proof. reflexivity. Qed.

Example run_Validate_malformed :
  vaultService_Validate (bcrypt := refBcrypt) Background "s3cret" "" 7
  = Ok ((false, None), 7).
Proof. reflexivity. Qed.

Lemma vaultService_Validate_Hash_witness :
  vaultService_Validate (bcrypt := refBcrypt) Background "s3cret" "Aterc3s" 7
  = Ok ((true, None), 7).
Proof.
  apply (vaultService_Validate_Hash (bcrypt := refBcrypt)
           refBcrypt_compare_generated
           Background "s3cret" "Aterc3s" 65 66 eq_refl Background 7).
Defined.

Lemma endpoint_responses_well_formed_witness :
  exists resp : hashResponse.t,
    MakeHashEndpoint (NewService (bcrypt := refBcrypt)) Background
      (box_hashRequest (hashRequest.mk "s3cret")) 65
    = Ok ((box_hashResponse resp, None), 66)
    /\ ~ (hashResponse.Hash resp <> "" /\ hashResponse.Err resp <> "").
Proof.
  destruct (endpoint_responses_well_formed (bcrypt := refBcrypt)
              refBcrypt_generated_nonempty refBcrypt_error_has_message
              Background "s3cret" "Aterc3s" 65)
    as [[h [err [w' [resp [Hsvc [Hep [_ [_ Hexcl]]]]]]]] _].
  exists resp. split; [| exact Hexcl].
  rewrite Hep. vm_compute in Hsvc. inv Hsvc. reflexivity.
Defined.

(** ** The endpoint layer over an arbitrary service *)

Section EndpointFacts.
Context {W : Type}.

(** What holds of a failing call for every service: no transport error,
    the message of the failure in [Err], [Valid] reset to false; the hash
    endpoint passes on the string the service returned next to its error. *)
Lemma endpoint_failure_response (srv : Service W) (ctx : Context)
      (password hash : string) (w : W) :
  (forall v e w',
      Hash srv ctx password w = Ok ((v, Some e), w') ->
      MakeHashEndpoint srv ctx (box_hashRequest (hashRequest.mk password)) w
      = Ok ((box_hashResponse (hashResponse.mk v (Error e)), None), w'))
  /\ (forall b e w',
         Validate srv ctx password hash w = Ok ((b, Some e), w') ->
         MakeValidateEndpoint srv ctx
           (box_validateRequest (validateRequest.mk password hash)) w
         = Ok ((box_validateResponse (validateResponse.mk false (Error e)),
                None), w')).
Proof.
  split.
  - intros v e w' H. rewrite MakeHashEndpoint_eq, H. reflexivity.
  - intros b e w' H. rewrite MakeValidateEndpoint_eq, H. reflexivity.
Qed.

(** C5, amended. The aggregate made from the two endpoints of a service
    [S] stands for [S] up to failures without a message. [Endpoints.Hash]
    returns the hash of [S.Hash] when that succeeds; it fails, with an
    error that carries the same message, when [S.Hash] fails with a
    message that is not empty, and only then. [Endpoints.Validate] returns
    the boolean of [S.Validate] when that succeeds, and [false] with an
    error of the same message when it fails with a message that is not
    empty. *)
Theorem Endpoints_stand_for_Service (S : Service W) (ctx : Context)
        (password hash : string) (w : W) :
  (forall h w',
      Hash S ctx password w = Ok ((h, None), w') ->
      Endpoints_Hash (endpoints_of S) ctx password w = Ok ((h, None), w'))
  /\ (forall v e w',
         Hash S ctx password w = Ok ((v, Some e), w') ->
         Error e <> "" ->
         Endpoints_Hash (endpoints_of S) ctx password w
         = Ok (("", Some (errors_New (Error e))), w'))
  /\ (forall h' err' w',
         Endpoints_Hash (endpoints_of S) ctx password w
         = Ok ((h', Some err'), w') ->
         exists v e,
           Hash S ctx password w = Ok ((v, Some e), w')
           /\ Error e <> "" /\ Error err' = Error e /\ h' = "")
  /\ (forall b w',
         Validate S ctx password hash w = Ok ((b, None), w') ->
         Endpoints_Validate (endpoints_of S) ctx password hash w
         = Ok ((b, None), w'))
  /\ (forall b e w',
         Validate S ctx password hash w = Ok ((b, Some e), w') ->
         Error e <> "" ->
         Endpoints_Validate (endpoints_of S) ctx password hash w
         = Ok ((false, Some (errors_New (Error e))), w')).
Proof.
  rewrite Endpoints_Hash_eq, Endpoints_Validate_eq.
  cbn [endpoints_of HashEndpoint ValidateEndpoint].
  rewrite MakeHashEndpoint_eq, MakeValidateEndpoint_eq.
  repeat split.
  - intros h w' H. rewrite H. reflexivity.
  - intros v e w' H Hmsg. rewrite H. cbn.
    rewrite (nonempty_eqb_false _ Hmsg). reflexivity.
  - intros h' err' w'.
    destruct (Hash S ctx password w) as [[[v [e |]] w1] | msg]; cbn.
    + destruct (Error e =? "") eqn:Hmsg; intros H; inv H.
      exists v, e. apply String.eqb_neq in Hmsg. repeat split; auto.
    + intros H. discriminate H.
    + intros H. discriminate H.
  - intros b w' H. rewrite H. reflexivity.
  - intros b e w' H Hmsg. rewrite H. cbn.
    rewrite (nonempty_eqb_false _ Hmsg). reflexivity.
Qed.

(** The aggregate tells a failure by the [Err] field of the response
    alone: a response with an empty [Err] is a success with the [Hash] (or
    [Valid]) it carries, any other is a failure. So when the service
    behind the endpoints fails with the empty message, [Endpoints.Hash]
    returns a nil error with the string the service returned next to its
    error, and [Endpoints.Validate] a nil error with [false]. *)
Lemma Endpoints_tell_failure_by_Err (e : Endpoints W) (S : Service W)
        (ctx : Context) (password hash : string) (w : W) :
  (forall resp w',
      HashEndpoint e ctx (box_hashRequest (hashRequest.mk password)) w
      = Ok ((box_hashResponse resp, None), w') ->
      Endpoints_Hash e ctx password w
      = if hashResponse.Err resp =? ""
        then Ok ((hashResponse.Hash resp, None), w')
        else Ok (("", Some (errors_New (hashResponse.Err resp))), w'))
  /\ (forall resp w',
         ValidateEndpoint e ctx
           (box_validateRequest (validateRequest.mk password hash)) w
         = Ok ((box_validateResponse resp, None), w') ->
         Endpoints_Validate e ctx password hash w
         = if validateResponse.Err resp =? ""
           then Ok ((validateResponse.Valid resp, None), w')
           else Ok ((false, Some (errors_New (validateResponse.Err resp))), w'))
  /\ (forall v err w',
         Hash S ctx password w = Ok ((v, Some err), w') ->
         Error err = "" ->
         Endpoints_Hash (endpoints_of S) ctx password w = Ok ((v, None), w'))
  /\ (forall b err w',
         Validate S ctx password hash w = Ok ((b, Some err), w') ->
         Error err = "" ->
         Endpoints_Validate (endpoints_of S) ctx password hash w
         = Ok ((false, None), w')).
Proof.
  repeat split.
  - intros resp w' H. rewrite Endpoints_Hash_eq, H. reflexivity.
  - intros resp w' H. rewrite Endpoints_Validate_eq, H. reflexivity.
  - intros v err w' H Hmsg. rewrite Endpoints_Hash_eq.
    cbn [endpoints_of HashEndpoint]. rewrite MakeHashEndpoint_eq, H. cbn.
    rewrite Hmsg. reflexivity.
  - intros b err w' H Hmsg. rewrite Endpoints_Validate_eq.
    cbn [endpoints_of ValidateEndpoint].
    rewrite MakeValidateEndpoint_eq, H. cbn. rewrite Hmsg. reflexivity.
Qed.
End EndpointFacts.

(** C4, at the service [partialHasher]: its [Hash] fails and returns a
    string next to the error; the response of the hash endpoint has the
    message in [Err] and that string, not the zero value, in [Hash]. *)
Theorem MakeHashEndpoint_keeps_partial_hash :
  Hash partialHasher Background "s3cret" tt
  = Ok (("partial", Some (errors_New "entropy source closed")), tt)
  /\ MakeHashEndpoint partialHasher Background
       (box_hashRequest (hashRequest.mk "s3cret")) tt
     = Ok ((box_hashResponse
              (hashResponse.mk "partial" "entropy source closed"), None), tt).
Proof. split; reflexivity. Qed.

(** The validate endpoint resets the flag on a failure. *)
Example MakeValidateEndpoint_failure :
  MakeValidateEndpoint failingService Background
    (box_validateRequest (validateRequest.mk "s3cret" "Aterc3s")) tt
  = Ok ((box_validateResponse
           (validateResponse.mk false "hasher unavailable"), None), tt).
Proof. reflexivity. Qed.

(** C5 as stated fails at [silentFailure]: its [Hash] fails, and
    [Endpoints.Hash] over its endpoints reports no error. *)
Lemma Endpoints_Hash_misses_silent_failure :
  failed (Hash silentFailure Background "s3cret" tt) = true
  /\ failed (Endpoints_Hash (endpoints_of silentFailure)
                            Background "s3cret" tt) = false.
Proof. split; reflexivity. Qed.

Example run_Endpoints_silentFailure :
  Endpoints_Hash (endpoints_of silentFailure) Background "s3cret" tt
  = Ok (("", None), tt)
  /\ Endpoints_Validate (endpoints_of silentFailure)
       Background "s3cret" "Aterc3s" tt
     = Ok ((false, None), tt).
Proof. split; reflexivity. Qed.

(** C10, at the service [silentPartial]: its [Hash] fails with the empty
    message and returns a string next to the error. The hash endpoint
    reports the failure with an empty [Err] and that string in [Hash], and
    [Endpoints.Hash] reports success with that string, not with the
    zero-value hash. [Endpoints.Validate] reports success with [false]. *)
Theorem Endpoints_Hash_silent_failure_keeps_hash :
  Hash silentPartial Background "s3cret" tt
  = Ok (("partial", Some (errors_New "")), tt)
  /\ MakeHashEndpoint silentPartial Background
       (box_hashRequest (hashRequest.mk "s3cret")) tt
     = Ok ((box_hashResponse (hashResponse.mk "partial" ""), None), tt)
  /\ Endpoints_Hash (endpoints_of silentPartial) Background "s3cret" tt
     = Ok (("partial", None), tt)
  /\ Endpoints_Validate (endpoints_of silentPartial)
       Background "s3cret" "Aterc3s" tt
     = Ok ((false, None), tt).
Proof. repeat split. Qed.

(** A flag returned next to an error is not passed on either. *)
Example run_Endpoints_Validate_partialHasher :
  Validate partialHasher Background "s3cret" "Aterc3s" tt
  = Ok ((true, Some (errors_New "entropy source closed")), tt)
  /\ Endpoints_Validate (endpoints_of partialHasher)
       Background "s3cret" "Aterc3s" tt
     = Ok ((false, Some (errors_New "entropy source closed")), tt).
Proof. split; reflexivity. Qed.

Example run_Endpoints_failingService :
  Endpoints_Hash (endpoints_of failingService) Background "s3cret" tt
  = Ok (("", Some (errors_New "hasher unavailable")), tt).
Proof. reflexivity. Qed.

(** ** gRPC codecs *)

(** X1. A [hashRequest] and a [validateRequest] survive encoding and
    decoding unchanged, with every field preserved and no error. *)
Lemma gRPC_request_round_trip (ctx : Context) :
  (forall r : hashRequest.t,
      through_wire EncodeGRPCHashRequest DecodeGRPCHashRequest ctx
                   (box_hashRequest r)
      = Ok (box_hashRequest r, None))
  /\ (forall r : validateRequest.t,
         through_wire EncodeGRPCValidateRequest DecodeGRPCValidateRequest ctx
                      (box_validateRequest r)
         = Ok (box_validateRequest r, None)).
Proof. split; intros r; destruct r; reflexivity. Qed.

(** C2, amended. A [hashResponse] survives encoding and decoding with
    [Hash] and [Err] preserved. A [validateResponse] comes back with
    [Valid] preserved and [Err] empty: the round trip is the identity on a
    [validateResponse] exactly when its [Err] is empty. *)
Theorem gRPC_response_round_trip (ctx : Context) :
  (forall r : hashResponse.t,
      through_wire EncodeGRPCHashResponse DecodeGRPCHashResponse ctx
                   (box_hashResponse r)
      = Ok (box_hashResponse r, None))
  /\ (forall r : validateResponse.t,
         through_wire EncodeGRPCValidateResponse DecodeGRPCValidateResponse ctx
                      (box_validateResponse r)
         = Ok (box_validateResponse
                 (validateResponse.mk (validateResponse.Valid r) ""), None))
  /\ (forall r : validateResponse.t,
         through_wire EncodeGRPCValidateResponse DecodeGRPCValidateResponse ctx
                      (box_validateResponse r)
         = Ok (box_validateResponse r, None)
         <-> validateResponse.Err r = "").
Proof.
  split; [| split].
  - intros [h e]. reflexivity.
  - intros [v e]. reflexivity.
  - intros [v e]. cbn. split; intros H.
    + inv H. reflexivity.
    + subst e. reflexivity.
Qed.

(** C2 as stated fails on a [validateResponse] that carries an error. *)
Lemma validateResponse_Err_lost_on_the_wire :
  through_wire EncodeGRPCValidateResponse DecodeGRPCValidateResponse Background
    (box_validateResponse (validateResponse.mk false "hasher unavailable"))
  <> Ok (box_validateResponse (validateResponse.mk false "hasher unavailable"),
         None).
Proof. cbn. intros H. inv H. Qed.

(** ** HTTP request decoders *)

Section DecoderFacts.
Context {json : JSONDecoder}.

(** For any decoder: when it rejects the body, [decodeHashRequest]
    returns the decoder's error and no request value (the nil interface);
    when it accepts the body, the decoded request is returned with a nil
    error. The same holds of [decodeValidateRequest]. *)
Lemma decode_request_error_or_value (ctx : Context) (r : http_Request) :
  (forall partial e,
      Decode_hashRequest (Body r) (hashRequest.mk "") = (partial, Some e) ->
      decodeHashRequest ctx r = (nil_interface, Some e))
  /\ (forall req,
         Decode_hashRequest (Body r) (hashRequest.mk "") = (req, None) ->
         decodeHashRequest ctx r = (box_hashRequest req, None))
  /\ (forall partial e,
         Decode_validateRequest (Body r) (validateRequest.mk "" "")
         = (partial, Some e) ->
         decodeValidateRequest ctx r = (nil_interface, Some e))
  /\ (forall req,
         Decode_validateRequest (Body r) (validateRequest.mk "" "")
         = (req, None) ->
         decodeValidateRequest ctx r = (box_validateRequest req, None)).
Proof.
  unfold decodeHashRequest, decodeValidateRequest.
  split; [| split; [| split]].
  - intros partial e H. rewrite H. reflexivity.
  - intros req H. rewrite H. reflexivity.
  - intros partial e H. rewrite H. reflexivity.
  - intros req H. rewrite H. reflexivity.
Qed.

(** A decoder never returns both a request and an error, nor neither. *)
Lemma decodeHashRequest_cases (ctx : Context) (r : http_Request) :
  (exists e, decodeHashRequest ctx r = (nil_interface, Some e))
  \/ (exists req, decodeHashRequest ctx r = (box_hashRequest req, None)).
Proof.
  unfold decodeHashRequest.
  destruct (Decode_hashRequest (Body r) (hashRequest.mk "")) as [req [e |]];
    eauto.
Qed.

(** In the handler, a body the decoder rejects is a transport failure
    whatever the endpoint is: the endpoint is not invoked (its call counter
    stays where it was) and no payload is produced. *)
Lemma serve_rejected_body {W : Type} (next : Endpoint W) (ctx : Context)
      (r : http_Request) (partial : hashRequest.t) (e : error)
      (n : nat) (w : W) :
  Decode_hashRequest (Body r) (hashRequest.mk "") = (partial, Some e) ->
  serve decodeHashRequest (counted next) ctx r (n, w)
  = Ok (TransportFailure e, (n, w)).
Proof.
  intros H. unfold serve, decodeHashRequest. rewrite H. reflexivity.
Qed.
End DecoderFacts.

(** The decoders run on the reference decoder. *)
Example run_decodeHashRequest_valid :
  decodeHashRequest (json := refJSON) Background
                    (body_of (json_password "s3cret"))
  = (box_hashRequest (hashRequest.mk "s3cret"), None).
Proof. reflexivity. Qed.

Example run_decodeHashRequest_malformed :
  decodeHashRequest (json := refJSON) Background (body_of "password=s3cret")
  = (nil_interface, Some RefJSON.SyntaxError).
Proof. reflexivity. Qed.

Example run_serve_malformed :
  serve (decodeHashRequest (json := refJSON))
        (counted (MakeHashEndpoint (NewService (bcrypt := refBcrypt))))
        Background (body_of "password=s3cret") (0, 65)
  = Ok (TransportFailure RefJSON.SyntaxError, (0, 65)).
Proof. reflexivity. Qed.

Example run_serve_valid :
  serve (decodeHashRequest (json := refJSON))
        (counted (MakeHashEndpoint (NewService (bcrypt := refBcrypt))))
        Background (body_of (json_password "s3cret")) (0, 65)
  = Ok (Payload (box_hashResponse (hashResponse.mk "Aterc3s" "")), (1, 66)).
Proof. reflexivity. Qed.

(** ** The JSON decoder and the HTTP request decoders *)

Module request_json_facts.
Import encoding_json request_json.
Local Open Scope N_scope.



Lemma saveError_not_None (saved : option error) (e : error) :
  saveError saved e <> None.
Proof. destruct saved; discriminate. Qed.

(** What storing the members of an object does to a hash request, and
    when it reports no error. *)
Lemma store_hashRequest_members (members : list (list N * value)) :
  forall (req : hashRequest.t) (saved : option error),
    fst (fold_left store_hashRequest_member members (req, saved))
    = hashRequest.mk (field_of "password" members (hashRequest.Password req))
    /\ (snd (fold_left store_hashRequest_member members (req, saved)) = None
        <-> saved = None /\ field_fits "password" members = true).
Proof.
  induction members as [| [key x] members IH]; intros [password] saved.
  - cbn. split; [reflexivity |]. split; [auto | intros [H _]; exact H].
  - cbn [fold_left field_of field_fits forallb fst snd
         store_hashRequest_member hashRequest.Password].
    destruct (names_field "password" key) eqn:Hname.
    + destruct x as [| b | lit | raw | items | ms];
        cbn [store_string kind_of andb].
      * apply IH.
      * destruct (IH (hashRequest.mk password)
                     (saveError saved (UnmarshalTypeError "bool")))
          as [H1 H2].
        split; [exact H1 |]. rewrite H2.
        split; [intros [H _]; elim (saveError_not_None _ _ H)
               | intros [_ H]; discriminate H].
      * destruct (IH (hashRequest.mk password)
                     (saveError saved (UnmarshalTypeError "number")))
          as [H1 H2].
        split; [exact H1 |]. rewrite H2.
        split; [intros [H _]; elim (saveError_not_None _ _ H)
               | intros [_ H]; discriminate H].
      * apply IH.
      * destruct (IH (hashRequest.mk password)
                     (saveError saved (UnmarshalTypeError "array")))
          as [H1 H2].
        split; [exact H1 |]. rewrite H2.
        split; [intros [H _]; elim (saveError_not_None _ _ H)
               | intros [_ H]; discriminate H].
      * destruct (IH (hashRequest.mk password)
                     (saveError saved (UnmarshalTypeError "object")))
          as [H1 H2].
        split; [exact H1 |]. rewrite H2.
        split; [intros [H _]; elim (saveError_not_None _ _ H)
               | intros [_ H]; discriminate H].
    + apply IH.
Qed.


(** Storing a value reports no error exactly when the value fits the
    request, and the request stored is then the one it stands for. *)
Lemma store_hashRequest_fits (v : value) :
  if fits_hashRequest v
  then store_hashRequest v (hashRequest.mk "") = (hashRequest_of v, None)
  else exists partial e,
      store_hashRequest v (hashRequest.mk "") = (partial, Some e).
Proof.
  destruct v as [| b | lit | raw | items | members]; cbn; eauto.
  destruct (store_hashRequest_members members (hashRequest.mk "") None)
    as [H1 H2].
  destruct (fold_left store_hashRequest_member members
                      (hashRequest.mk "", None)) as [req saved].
  cbn [fst snd hashRequest.Password] in *.
  destruct (field_fits "password" members).
  - rewrite H1. f_equal. apply H2. split; reflexivity.
  - destruct saved as [e |]; [eauto |].
    destruct (proj1 H2 eq_refl) as [_ H]. discriminate H.
Qed.



Lemma decodeHashRequest_by_first_value (ctx : Context) (r : http_Request) :
  match begins_with_hashRequest (Body r) with
  | Some req =>
      decodeHashRequest (json := goJSON) ctx r = (box_hashRequest req, None)
  | None =>
      exists e,
        decodeHashRequest (json := goJSON) ctx r = (nil_interface, Some e)
  end.
Proof.
  unfold begins_with_hashRequest, decodeHashRequest.
  cbn [Decode_hashRequest goJSON]. unfold Decode_hash.
  destruct (first_value (map Byte.to_N (Body r))) as [[v rest] | e0];
    [| eauto].
  pose proof (store_hashRequest_fits v) as Hh.
  destruct (fits_hashRequest v).
  - rewrite Hh. reflexivity.
  - destruct Hh as [partial [e He]]. rewrite He. eauto.
Qed.



(** *** Bodies with a request in them *)

Lemma N_of_byte_of_ascii (a : Ascii.ascii) :
  Byte.to_N (Ascii.byte_of_ascii a) = Ascii.N_of_ascii a.
Proof.
  apply Byte.to_of_N. symmetry. apply Ascii.byte_of_ascii_via_N.
Qed.

Lemma bytes_of_body (s : string) :
  map Byte.to_N (list_byte_of_string s) = bytes_of_string s.
Proof.
  unfold list_byte_of_string, bytes_of_string. rewrite map_map.
  apply map_ext. exact N_of_byte_of_ascii.
Qed.

Lemma bytes_of_string_app (a b : string) :
  bytes_of_string (a ++ b) = (bytes_of_string a ++ bytes_of_string b)%list.
Proof.
  unfold bytes_of_string. rewrite <- map_app. f_equal.
  induction a as [| c a IH]; cbn; [reflexivity | rewrite IH; reflexivity].
Qed.

Lemma string_of_bytes_of_string (s : string) :
  string_of_bytes (bytes_of_string s) = s.
Proof.
  unfold string_of_bytes, bytes_of_string. rewrite map_map.
  rewrite (map_ext _ (fun a => a)) by apply Ascii.ascii_N_embedding.
  rewrite map_id. apply string_of_list_ascii_of_string.
Qed.

Lemma plain_byte_step (c : N) (acc : list N) (stack : list frame) :
  plain_byte c = true ->
  scan_step (InString acc) stack c = Continue (InString (c :: acc)) stack.
Proof.
  unfold plain_byte. intros H.
  apply andb_true_iff in H. destruct H as [H H92].
  apply andb_true_iff in H. destruct H as [H H34].
  apply andb_true_iff in H. destruct H as [H32 H128].
  apply negb_true_iff in H34, H92. apply N.leb_le in H32.
  cbn [scan_step]. rewrite H34, H92.
  destruct (N.ltb_spec c 32) as [Hlt | _]; [lia | reflexivity].
Qed.

Lemma scan_plain (pw : list N) :
  forall (acc : list N) (stack : list frame) (tail : list N),
    forallb plain_byte pw = true ->
    scan (InString acc) stack (pw ++ tail)
    = scan (InString (rev pw ++ acc)) stack tail.
Proof.
  induction pw as [| c pw IH]; intros acc stack tail H; [reflexivity |].
  cbn in H. apply andb_true_iff in H. destruct H as [Hc Hpw].
  cbn [app scan]. rewrite (plain_byte_step c acc stack Hc).
  rewrite (IH (c :: acc) stack tail Hpw). cbn [rev].
  rewrite <- app_assoc. reflexivity.
Qed.

Lemma unquote_plain (pw : list N) :
  forallb plain_byte pw = true -> unquote pw = pw.
Proof.
  induction pw as [| c pw IH]; intros H; [reflexivity |].
  cbn in H. apply andb_true_iff in H. destruct H as [Hc Hpw].
  unfold plain_byte in Hc.
  apply andb_true_iff in Hc. destruct Hc as [Hc H92].
  apply andb_true_iff in Hc. destruct Hc as [Hc _].
  apply andb_true_iff in Hc. destruct Hc as [_ H128].
  apply negb_true_iff in H92.
  cbn [unquote]. rewrite H92, H128, (IH Hpw). reflexivity.
Qed.

(** The object of a hash request with a plain password, as a client
    writes it: an opening brace, the key, a colon, the password between
    quotes and a closing brace. *)
Lemma first_value_password_object (pw tail : list N) :
  forallb plain_byte pw = true ->
  first_value (bytes_of_string ("{" ++ RefJSON.quote ++ "password"
                                    ++ RefJSON.quote ++ ":" ++ RefJSON.quote)
               ++ pw ++ 34 :: 125 :: tail)
  = inl (JObject [(bytes_of_string "password", JString pw)], tail).
Proof.
  intros Hpw. unfold first_value.
  change (bytes_of_string ("{" ++ RefJSON.quote ++ "password"
                               ++ RefJSON.quote ++ ":" ++ RefJSON.quote))
    with [123; 34; 112; 97; 115; 115; 119; 111; 114; 100; 34; 58; 34].
  change (scan BeginValue []
               ([123; 34; 112; 97; 115; 115; 119; 111; 114; 100; 34; 58; 34]
                ++ pw ++ 34 :: 125 :: tail))
    with (scan (InString [])
               [FVal [] [112; 97; 115; 115; 119; 111; 114; 100]]
               (pw ++ 34 :: 125 :: tail)).
  rewrite (scan_plain pw _ _ _ Hpw).
  cbn [scan scan_step]. rewrite app_nil_r, rev_involutive. reflexivity.
Qed.

Lemma bytes_of_json_password (pw : string) :
  bytes_of_string (json_password pw)
  = (bytes_of_string ("{" ++ RefJSON.quote ++ "password"
                          ++ RefJSON.quote ++ ":" ++ RefJSON.quote)
     ++ bytes_of_string pw ++ [34; 125])%list.
Proof.
  unfold json_password. rewrite !bytes_of_string_app.
  rewrite <- !app_assoc. reflexivity.
Qed.

Lemma names_field_password :
  names_field "password" (bytes_of_string "password") = true.
Proof. vm_compute. reflexivity. Qed.

Lemma plain_password_body (pw : string) (rest : list byte) :
  plain_string pw = true ->
  begins_with_hashRequest (list_byte_of_string (json_password pw) ++ rest)
  = Some (hashRequest.mk pw).
Proof.
  intros Hpw. unfold begins_with_hashRequest.
  rewrite map_app, bytes_of_body, bytes_of_json_password.
  rewrite <- !app_assoc. cbn [app].
  rewrite (first_value_password_object _ _ Hpw).
  cbn [fits_hashRequest field_fits forallb fst snd hashRequest_of field_of
       fold_left].
  rewrite names_field_password. cbn [andb].
  rewrite (unquote_plain _ Hpw), string_of_bytes_of_string. reflexivity.
Qed.

(** X15. A hash request written as an object with the one member
    [password], whose value is a string of plain bytes (printable ASCII
    without the quote and the backslash), decodes to the request with that
    password and a nil error, whatever bytes follow the closing brace. *)
Theorem plain_password_decodes (ctx : Context) (pw : string)
        (rest : list byte) :
  plain_string pw = true ->
  decodeHashRequest (json := goJSON) ctx
    (mk_http_Request (list_byte_of_string (json_password pw) ++ rest))
  = (box_hashRequest (hashRequest.mk pw), None).
Proof.
  intros Hpw.
  pose proof (decodeHashRequest_by_first_value ctx
                (mk_http_Request
                   (list_byte_of_string (json_password pw) ++ rest))) as H.
  cbn [Body] in H. rewrite (plain_password_body pw rest Hpw) in H. exact H.
Qed.

Lemma plain_password_decodes_witness :
  decodeHashRequest (json := goJSON) Background
    (mk_http_Request
       (list_byte_of_string (json_password "s3cret")
        ++ list_byte_of_string " trailing bytes"))
  = (box_hashRequest (hashRequest.mk "s3cret"), None).
Proof.
  apply (plain_password_decodes Background "s3cret"
           (list_byte_of_string " trailing bytes")).
  reflexivity.
Defined.

Lemma scan_skips_space (ws rest : list N) :
  forallb isSpace ws = true ->
  scan BeginValue [] (ws ++ rest) = scan BeginValue [] rest.
Proof.
  induction ws as [| c ws IH]; intros H; [reflexivity |].
  cbn in H. apply andb_true_iff in H. destruct H as [Hc Hws].
  cbn [app scan scan_step]. unfold begin_value. rewrite Hc.
  apply IH. exact Hws.
Qed.

Lemma scan_bad_start (c : N) (rest : list N) :
  isSpace c = false -> begins_value c = false ->
  scan BeginValue [] (c :: rest)
  = inr (syntaxError "looking for beginning of value").
Proof.
  unfold begins_value. intros Hs Hb.
  repeat (apply orb_false_iff in Hb; destruct Hb as [Hb ?]).
  cbn [scan scan_step]. unfold begin_value.
  rewrite Hs.
  repeat match goal with
         | H : (c =? _) = false |- _ => rewrite H; clear H
         end.
  destruct (c =? 48) eqn:H48.
  { apply N.eqb_eq in H48. subst c. discriminate. }
  destruct ((49 <=? c) && (c <=? 57)) eqn:H19; [| reflexivity].
  apply andb_true_iff in H19. destruct H19 as [Hlo Hhi].
  apply N.leb_le in Hlo.
  assert (Hlo' : (48 <=? c) = true) by (apply N.leb_le; lia).
  rewrite Hlo', Hhi in *. discriminate.
Qed.

(** X16. A body that, after its white space, begins with a byte no JSON
    value begins with (a form-encoded or an XML body, for one) is
    rejected by both decoders with a syntax error and no request value,
    whatever follows that byte. *)
Theorem not_json_rejected (ctx : Context) (ws : list byte) (c : byte)
        (rest : list byte) :
  forallb isSpace (map Byte.to_N ws) = true ->
  isSpace (Byte.to_N c) = false ->
  begins_value (Byte.to_N c) = false ->
  decodeHashRequest (json := goJSON) ctx
                    (mk_http_Request (ws ++ c :: rest))
  = (nil_interface, Some (syntaxError "looking for beginning of value"))
  /\ decodeValidateRequest (json := goJSON) ctx
                           (mk_http_Request (ws ++ c :: rest))
     = (nil_interface, Some (syntaxError "looking for beginning of value")).
Proof.
  intros Hws Hs Hb.
  unfold decodeHashRequest, decodeValidateRequest.
  cbn [Decode_hashRequest Decode_validateRequest goJSON Body].
  unfold Decode_hash, Decode_validate, first_value.
  rewrite map_app. cbn [map].
  rewrite (scan_skips_space _ _ Hws), (scan_bad_start _ _ Hs Hb).
  split; reflexivity.
Qed.

Lemma not_json_rejected_witness :
  decodeHashRequest (json := goJSON) Background
                    (body_of "  password=s3cret&hash=Aterc3s")
  = (nil_interface, Some (syntaxError "looking for beginning of value")).
Proof.
  apply (not_json_rejected Background (list_byte_of_string "  ")
           "p"%byte (list_byte_of_string "assword=s3cret&hash=Aterc3s"));
    reflexivity.
Defined.


(** The decoders at some bodies. *)
Example json_text_request :
  json_text (list_byte_of_string (json_password "s3cret")) = true.
Proof. vm_compute. reflexivity. Qed.

Example decode_not_json :
  decodeHashRequest (json := goJSON) Background (body_of "password=s3cret")
  = (nil_interface,
     Some (syntaxError "looking for beginning of value")).
Proof. vm_compute. reflexivity. Qed.

Example decode_empty_body :
  decodeHashRequest (json := goJSON) Background (body_of "")
  = (nil_interface, Some EOF).
Proof. vm_compute. reflexivity. Qed.

Example decode_truncated :
  decodeHashRequest (json := goJSON) Background
    (body_of ("{" ++ RefJSON.quote ++ "password" ++ RefJSON.quote ++ ":"))
  = (nil_interface, Some ErrUnexpectedEOF).
Proof. vm_compute. reflexivity. Qed.

Example decode_wrong_type :
  decodeHashRequest (json := goJSON) Background
    (body_of ("{" ++ RefJSON.quote ++ "password" ++ RefJSON.quote ++ ":5}"))
  = (nil_interface, Some (UnmarshalTypeError "number")).
Proof. vm_compute. reflexivity. Qed.

Example decode_array :
  decodeHashRequest (json := goJSON) Background (body_of "[1, 2]")
  = (nil_interface, Some (UnmarshalTypeError "array")).
Proof. vm_compute. reflexivity. Qed.

Example decode_null_and_empty_object :
  decodeHashRequest (json := goJSON) Background (body_of "null")
  = (box_hashRequest (hashRequest.mk ""), None)
  /\ decodeHashRequest (json := goJSON) Background (body_of " {} ")
     = (box_hashRequest (hashRequest.mk ""), None).
Proof. split; vm_compute; reflexivity. Qed.

(** Keys match up to case, unknown members are skipped, escapes are
    resolved and the last member of a name wins. *)
Example decode_liberal_object :
  decodeHashRequest (json := goJSON) Background
    (body_of ("{" ++ RefJSON.quote ++ "extra" ++ RefJSON.quote ++ ":[1,{}],"
                  ++ RefJSON.quote ++ "PassWord" ++ RefJSON.quote ++ " : "
                  ++ RefJSON.quote ++ "first" ++ RefJSON.quote ++ ", "
                  ++ RefJSON.quote ++ "password" ++ RefJSON.quote ++ ":"
                  ++ RefJSON.quote ++ "s3cret" ++ RefJSON.quote ++ "}"))
  = (box_hashRequest (hashRequest.mk "s3cret"), None).
Proof. vm_compute. reflexivity. Qed.

Example decode_validate_request :
  decodeValidateRequest (json := goJSON) Background
    (body_of ("{" ++ RefJSON.quote ++ "hash" ++ RefJSON.quote ++ ":"
                  ++ RefJSON.quote ++ "Aterc3s" ++ RefJSON.quote ++ ","
                  ++ RefJSON.quote ++ "password" ++ RefJSON.quote ++ ":"
                  ++ RefJSON.quote ++ "s3cret" ++ RefJSON.quote ++ "} x"))
  = (box_validateRequest (validateRequest.mk "s3cret" "Aterc3s"), None).
Proof. vm_compute. reflexivity. Qed.

Example decode_validate_wrong_type :
  decodeValidateRequest (json := goJSON) Background
    (body_of ("{" ++ RefJSON.quote ++ "hash" ++ RefJSON.quote ++ ":true,"
                  ++ RefJSON.quote ++ "password" ++ RefJSON.quote ++ ":"
                  ++ RefJSON.quote ++ "s3cret" ++ RefJSON.quote ++ "}"))
  = (nil_interface, Some (UnmarshalTypeError "bool")).
Proof. vm_compute. reflexivity. Qed.

End request_json_facts.

(** ** The rate limiter *)

Section LimiterFacts.
Context {W : Type}.
Variable ErrLimited : error.

(** Over any bucket: the middleware asks for one token, once; what it does
    next is decided by the number it was given. *)
Lemma limiter_by_TakeAvailable {B : Type} {bucket : TokenBucket B}
      (next : Endpoint W) (ctx : Context) (request : any) (tb : B) (w : W) :
  NewTokenBucketLimiter ErrLimited next ctx request (tb, w)
  = if (fst (TakeAvailable tb 1) =? 0)%Z
    then Ok ((nil_interface, Some ErrLimited), (snd (TakeAvailable tb 1), w))
    else match next ctx request w with
         | Ok (r, w') => Ok (r, (snd (TakeAvailable tb 1), w'))
         | Panic msg => Panic msg
         end.
Proof.
  unfold NewTokenBucketLimiter.
  destruct (TakeAvailable tb 1) as [taken tb']. reflexivity.
Qed.

(** C9, amended. Every attempt asks the bucket for one token. When a token
    is available, exactly one is consumed, the inner endpoint is invoked
    exactly once and its result is returned unchanged. When none is
    available, none is consumed and the wrapped endpoint returns a nil
    response and the limited error without invoking the inner endpoint. *)
Theorem limiter_attempt (next : Endpoint W) (ctx : Context) (request : any)
        (tb : ratelimit.Bucket) (n : nat) (w : W) :
  ((0 < ratelimit.availableTokens tb)%Z ->
   exists tb',
     consumed tb tb' = 1%Z
     /\ NewTokenBucketLimiter ErrLimited (counted next) ctx request
                              (tb, (n, w))
        = match next ctx request w with
          | Ok (r, w') => Ok (r, (tb', (S n, w')))
          | Panic msg => Panic msg
          end)
  /\ ((ratelimit.availableTokens tb <= 0)%Z ->
      consumed tb tb = 0%Z
      /\ NewTokenBucketLimiter ErrLimited (counted next) ctx request
                               (tb, (n, w))
         = Ok ((nil_interface, Some ErrLimited), (tb, (n, w)))).
Proof.
  unfold NewTokenBucketLimiter, counted, consumed. cbn.
  unfold ratelimit.Bucket_TakeAvailable. cbn.
  split; intros Havail.
  - exists (ratelimit.mkBucket (ratelimit.availableTokens tb - 1)).
    destruct (Z.leb_spec (ratelimit.availableTokens tb) 0) as [Hle | Hlt];
      [lia |].
    rewrite Z.min_l by lia. cbn. split; [lia |].
    destruct (next ctx request w) as [[r w'] | msg]; reflexivity.
  - destruct (Z.leb_spec (ratelimit.availableTokens tb) 0) as [Hle | Hlt];
      [| lia].
    cbn. split; [lia | reflexivity].
Qed.
End LimiterFacts.

(** C9 as stated fails on an empty bucket: the attempt is turned away and
    the bucket is as it was, so the attempt consumed no token, not one. *)
Lemma denied_attempt_consumes_no_token :
  NewTokenBucketLimiter (errors_New "rate limit exceeded") echoEndpoint
    Background (box_hashRequest (hashRequest.mk "s3cret"))
    (ratelimit.mkBucket 0, tt)
  = Ok ((nil_interface, Some (errors_New "rate limit exceeded")),
        (ratelimit.mkBucket 0, tt))
  /\ consumed (ratelimit.mkBucket 0) (ratelimit.mkBucket 0) <> 1%Z.
Proof. split; [reflexivity | discriminate]. Qed.

Example run_limiter_two_tokens :
  let limited :=
    NewTokenBucketLimiter (errors_New "rate limit exceeded")
                          (counted echoEndpoint) in
  let req := box_hashRequest (hashRequest.mk "s3cret") in
  bind (limited Background req) (fun _ =>
  bind (limited Background req) (fun _ =>
  limited Background req)) (ratelimit.mkBucket 2, (0, tt))
  = Ok ((nil_interface, Some (errors_New "rate limit exceeded")),
        (ratelimit.mkBucket 0, (2, tt))).
Proof. reflexivity. Qed.

(** ** The process *)

Module vaultd_facts.
Import vaultd.

(** C7, on the process as it is written: scheduled on its own, [main]
    runs its twelve statements and returns; the process has then ended
    with status 0, no trigger has occurred and nothing was received from
    [errChan]. *)
Theorem main_exits_zero_without_trigger :
  exit (run (repeat RunMain 13) (start main)) = Some 0%Z
  /\ fired (run (repeat RunMain 13) (start main)) = []
  /\ delivered (run (repeat RunMain 13) (start main)) = 0.
Proof. repeat split. Qed.

Lemma main_does_not_wait : ~ waits_for_trigger main.
Proof.
  intros H.
  destruct (H (repeat RunMain 13) 0%Z eq_refl eq_refl) as [Hstatus _].
  apply Hstatus. reflexivity.
Qed.

Lemma run_step_invariant (P : process -> Prop) (ok : choice -> bool) :
  (forall c p, ok c = true -> P p -> P (step c p)) ->
  forall schedule p,
    forallb ok schedule = true -> P p -> P (run schedule p).
Proof.
  intros Hstep schedule. unfold run.
  induction schedule as [| c schedule IH]; intros p Hok Hp; cbn; [exact Hp |].
  cbn in Hok. apply andb_true_iff in Hok. destruct Hok as [Hc Hok].
  apply IH; [exact Hok |]. apply Hstep; assumption.
Qed.

Lemma forallb_always {A : Type} (l : list A) :
  forallb (fun _ => true) l = true.
Proof. induction l as [| a l IH]; [reflexivity | exact IH]. Qed.

Lemma step_go_frame (i : nat) (fails : bool) (p : process) :
  exit p = None ->
  main_k (step_go i fails p) = main_k p
  /\ delivered (step_go i fails p) = delivered p
  /\ exit (step_go i fails p) = None.
Proof.
  intros Hex. unfold step_go.
  destruct (nth_error (goroutines p) i) as [[| [what | | | t | t h | |] k] |];
    try destruct fails; try destruct (1 <=? pending p)%nat; cbn; auto.
Qed.

Lemma step_rendezvous_plain (i : nat) (p : process) :
  forallb plain (main_k p) = true -> step_rendezvous i p = p.
Proof.
  intros Hplain. unfold step_rendezvous.
  destruct (main_k p) as [| [what | | body | |] k]; cbn in Hplain;
    try discriminate; reflexivity.
Qed.

Lemma step_never_received (c : choice) (p : process) :
  never_received p -> never_received (step c p).
Proof.
  intros Hp. unfold step.
  destruct (exit p) as [status0 |] eqn:Hex; [exact Hp |].
  destruct Hp as [Hplain [Hdel Hexit]].
  destruct c as [| i fails | i | s | help].
  - unfold step_main.
    destruct (main_k p) as [| [what | | body | |] k] eqn:Hk; cbn in Hplain;
      try discriminate; unfold never_received; cbn; rewrite ?Hk;
      (split; [assumption || reflexivity | split; [exact Hdel |]]);
      intros status H; inv H.
    left. reflexivity.
  - destruct (step_go_frame i fails p Hex) as [Hk [Hd Hx]].
    repeat split; [rewrite Hk; exact Hplain | rewrite Hd; exact Hdel |].
    intros status H. rewrite Hx in H. discriminate H.
  - rewrite (step_rendezvous_plain i p Hplain).
    repeat split; auto.
  - unfold step_signal. destruct (notified p).
    + split; [exact Hplain | split; [exact Hdel |]].
      intros status H. discriminate H.
    + split; [exact Hplain | split; [exact Hdel |]].
      intros status H. cbn in H. inv H.
      destruct s; cbn; unfold possible_status; auto.
  - unfold step_bad_flags.
    destruct (main_k p) as [| [what | | body | |] k] eqn:Hk;
      try (split; [rewrite Hk; exact Hplain | split; [exact Hdel | exact Hexit]]).
    split; [cbn; rewrite Hk; exact Hplain | split; [exact Hdel |]].
    intros status H. cbn in H. inv H.
    destruct help; unfold possible_status; auto.
Qed.

Lemma step_calm (c : choice) (p : process) :
  match c with BadFlags _ | Signal _ => false | _ => true end = true ->
  calm p -> calm (step c p).
Proof.
  intros Hc Hp. unfold step.
  destruct (exit p) as [status0 |] eqn:Hex; [exact Hp |].
  destruct Hp as [Hplain _].
  destruct c as [| i fails | i | s | help]; try discriminate Hc.
  - unfold step_main.
    destruct (main_k p) as [| [what | | body | |] k] eqn:Hk; cbn in Hplain;
      try discriminate; split; cbn; rewrite ?Hk; auto.
  - destruct (step_go_frame i fails p Hex) as [Hk [_ Hx]].
    split; [rewrite Hk; exact Hplain | left; exact Hx].
  - rewrite (step_rendezvous_plain i p Hplain). split; auto.
Qed.

Lemma main_calm (schedule : list choice) :
  no_signal schedule = true ->
  exit (run schedule (start main)) = None
  \/ exit (run schedule (start main)) = Some 0%Z.
Proof.
  intros Hquiet.
  apply (run_step_invariant calm _ step_calm schedule (start main) Hquiet).
  split; [reflexivity | left; reflexivity].
Qed.

(** Under every schedule the process as written keeps [never_received]:
    nothing is received from [errChan], and it ends, if it does, by the
    return of [main] or the usage of [-h], by [flag.Parse] rejecting the
    command line, or killed by a signal that came before
    [signal.Notify]. *)
Lemma main_keeps_never_received (schedule : list choice) :
  never_received (run schedule (start main)).
Proof.
  apply (run_step_invariant never_received (fun _ => true)).
  - intros c p _. apply step_never_received.
  - apply forallb_always.
  - repeat split. intros status H. discriminate H.
Qed.

(** X9. Whatever the schedule and the environment do, nothing is ever
    received from [errChan], so no goroutine ever completes its send and
    no error of a listener ever ends the process. On an accepted command
    line and without a signal the process never ends with a status other
    than zero, whatever the listeners do. *)
Theorem main_never_receives (schedule : list choice) :
  delivered (run schedule (start main)) = 0
  /\ (no_signal schedule = true ->
      forall status,
        exit (run schedule (start main)) = Some status -> status = 0%Z).
Proof.
  destruct (main_keeps_never_received schedule) as [_ [Hdel _]].
  split; [exact Hdel |].
  intros Hquiet status Hs.
  destruct (main_calm schedule Hquiet) as [Hx | Hx];
    rewrite Hx in Hs; inv Hs. reflexivity.
Qed.

(** *** With [log.Fatalln(<-errChan)] as the last statement *)

Lemma In_set_nth {A : Type} (i : nat) (x y : A) (l : list A) :
  In y (set_nth i x l) -> y = x \/ In y l.
Proof.
  revert i. induction l as [| a l IH]; intros i H; cbn in H.
  - destruct i; contradiction.
  - destruct i as [| j]; cbn in H.
    + destruct H as [H | H]; [left; congruence | right; right; exact H].
    + destruct H as [H | H]; [right; left; exact H |].
      destruct (IH j H) as [H' | H']; [left; exact H' | right; right; exact H'].
Qed.

Lemma quiet_after_step (i : nat) (g k : list gstmt) (l : list (list gstmt)) :
  nth_error l i = Some g ->
  (quiet g = true -> quiet k = true) ->
  (forall g', In g' l -> quiet g' = true) ->
  forall g', In g' (set_nth i k l) -> quiet g' = true.
Proof.
  intros Hnth Hk Hall g' Hin.
  destruct (In_set_nth _ _ _ _ Hin) as [-> | Hin'].
  - apply Hk. apply Hall. eapply nth_error_In. exact Hnth.
  - apply Hall. exact Hin'.
Qed.

(** A step that is not one of [main] leaves [main] where it is. *)
Lemma main_waiting_frame (p : process) (gs : list (list gstmt))
      (nt : bool) (pd : nat) (f : list trigger) :
  exit p = None ->
  (fired p <> [] -> f <> []) ->
  main_waiting p ->
  main_waiting (mkProcess (main_k p) gs nt pd f (delivered p) None).
Proof.
  intros Hex Hf [[k [Hk [Hq _]]] | [[Hk [Hfired _]] | [st [Hx _]]]].
  - left. exists k. auto.
  - right. left. cbn. auto.
  - congruence.
Qed.

(** Once a trigger has occurred only [main] matters. *)
Lemma waiting_fired (p : process) :
  main_waiting p -> fired p <> [] -> waiting p.
Proof.
  intros Hmain Hf. split; [exact Hmain |]. split; [left; exact Hf |].
  intros _. exact Hf.
Qed.

Lemma waiting_goroutine (p : process) (i : nat) (g k : list gstmt)
      (nt : bool) :
  exit p = None ->
  nth_error (goroutines p) i = Some g ->
  (quiet g = true -> quiet k = true) ->
  waiting p ->
  waiting (mkProcess (main_k p) (set_nth i k (goroutines p)) nt (pending p)
                     (fired p) (delivered p) None).
Proof.
  intros Hex Hnth Hk [Hmain [Hgo Hsig]].
  split; [apply main_waiting_frame; auto |]. split; [| exact Hsig].
  destruct Hgo as [Hf | Hall]; [left; exact Hf | right]. cbn.
  eapply quiet_after_step; eauto.
Qed.

Lemma step_go_waiting (i : nat) (fails : bool) (p : process) :
  exit p = None -> waiting p -> waiting (step_go i fails p).
Proof.
  intros Hex Hw. unfold step_go.
  destruct (nth_error (goroutines p) i) as [g |] eqn:Hnth; [| exact Hw].
  destruct g as [| [what | | | t | t h | |] k]; try exact Hw.
  - apply (waiting_goroutine p i _ k (notified p) Hex Hnth); auto.
  - apply (waiting_goroutine p i _ k true Hex Hnth); auto.
  - destruct (Nat.leb_spec 1 (pending p)) as [Hpd | Hpd]; [| exact Hw].
    destruct Hw as [Hmain [_ Hsig]].
    assert (Hf : fired p <> []) by (apply Hsig; lia).
    apply waiting_fired; [| exact Hf].
    apply main_waiting_frame; auto.
  - destruct Hw as [Hmain _]. apply waiting_fired; [| cbn; discriminate].
    apply (main_waiting_frame p _ _ _ (t :: fired p) Hex); [| exact Hmain].
    intros _. discriminate.
  - destruct fails.
    + destruct Hw as [Hmain _]. apply waiting_fired; [| cbn; discriminate].
      apply (main_waiting_frame p _ _ _ (t :: fired p) Hex); [| exact Hmain].
      intros _. discriminate.
    + apply (waiting_goroutine p i _ k (notified p) Hex Hnth); auto.
  - apply (waiting_goroutine p i _ [] (notified p) Hex Hnth); auto.
Qed.

Lemma step_main_waiting (p : process) :
  exit p = None -> waiting p -> waiting (step_main p).
Proof.
  intros Hex [Hmain [Hgo Hsig]]. unfold step_main.
  destruct Hmain as [[k [Hk [Hq _]]] | [[Hk [Hf _]] | [st [Hx _]]]];
    [| | congruence].
  - destruct k as [| [what | | body | |] k']; cbn in Hk, Hq; rewrite Hk;
      try discriminate.
    + split; [| split; assumption]. left. exists []. auto.
    + split; [| split; assumption]. left. exists k'. auto.
    + split; [| split; assumption]. left. exists k'. auto.
    + apply andb_true_iff in Hq. destruct Hq as [Hbody Hq].
      split; [left; exists k'; auto |]. split; [| exact Hsig].
      destruct Hgo as [Hf | Hall]; [left; exact Hf | right]. cbn.
      intros g Hin. apply in_app_or in Hin.
      destruct Hin as [Hin | [<- | []]]; auto.
  - rewrite Hk. apply waiting_fired; [| exact Hf].
    right. right. exists 1%Z. cbn. repeat split; auto. discriminate.
Qed.

Lemma step_rendezvous_waiting (i : nat) (p : process) :
  exit p = None -> waiting p -> waiting (step_rendezvous i p).
Proof.
  intros Hex Hw. unfold step_rendezvous.
  destruct (main_k p) as [| [what | | body | |] k0] eqn:Hk; try exact Hw.
  destruct (nth_error (goroutines p) i)
    as [[| [what | | | t | t h | |] g] |] eqn:Hnth; try exact Hw.
  destruct Hw as [Hmain [Hgo _]].
  assert (Hfired : fired p <> []).
  { destruct Hgo as [Hf | Hall]; [exact Hf |].
    apply nth_error_In in Hnth. apply Hall in Hnth. discriminate Hnth. }
  apply waiting_fired; [| exact Hfired].
  destruct Hmain as [[k [Hk' [Hq _]]] | [[Hk' _] | [st [Hx _]]]];
    [| congruence | congruence].
  rewrite Hk in Hk'. destruct k as [| s k']; cbn in Hk'.
  - inv Hk'. right. left. auto.
  - inv Hk'. cbn in Hq. discriminate.
Qed.

Lemma step_signal_waiting (s : signal) (p : process) :
  exit p = None -> waiting p -> waiting (step_signal s p).
Proof.
  intros Hex [Hmain _]. unfold step_signal.
  destruct (notified p).
  - apply waiting_fired; [| cbn; discriminate].
    apply (main_waiting_frame p _ _ _ (TerminationSignal :: fired p) Hex);
      [| exact Hmain].
    intros _. discriminate.
  - apply waiting_fired; [| cbn; discriminate].
    right. right. exists (128 + signo s)%Z. cbn.
    repeat split; try discriminate. destruct s; discriminate.
Qed.

Lemma step_waiting (c : choice) (p : process) :
  match c with BadFlags _ => false | _ => true end = true ->
  waiting p -> waiting (step c p).
Proof.
  intros Hc Hw. unfold step.
  destruct (exit p) as [status |] eqn:Hex; [exact Hw |].
  destruct c as [| i fails | i | s | help]; try discriminate Hc.
  - apply step_main_waiting; assumption.
  - apply step_go_waiting; assumption.
  - apply step_rendezvous_waiting; assumption.
  - apply step_signal_waiting; assumption.
Qed.

Lemma start_waiting : waiting (start main_then_wait).
Proof.
  split; [| split].
  - left. exists main. repeat split.
  - right. intros g [].
  - intros H. cbn in H. lia.
Qed.

(** The statement the source leaves out makes the difference: with it as
    the last statement of [main], on an accepted command line, the
    process ends only after a trigger and with a status that is not
    zero. *)
Lemma main_then_wait_waits : waits_for_trigger main_then_wait.
Proof.
  intros schedule status Hflags.
  pose proof (run_step_invariant waiting _ step_waiting schedule
                                 (start main_then_wait) Hflags start_waiting)
    as Hw.
  destruct Hw as [[[k [_ [_ Hx]]] | [[_ [_ Hx]] | [st [Hx [Hst Hf]]]]] _];
    intros Hexit; rewrite Hx in Hexit; inv Hexit.
  split; assumption.
Qed.

(** An execution of the completed program: the gRPC listener fails,
    its goroutine sends the error, [main] receives it and ends the
    process with status 1. *)
Example main_then_wait_listen_failure :
  let p := run (repeat RunMain 12 ++ [RunGo 2 true; Rendezvous 2; RunMain])
               (start main_then_wait) in
  exit p = Some 1%Z /\ fired p = [GRPCListenError] /\ delivered p = 1.
Proof. repeat split. Qed.

(** Executions of [main] that end otherwise than by its return: an
    undefined flag, and a SIGTERM before [signal.Notify] has run. *)
Example main_rejected_flags :
  exit (run [RunMain; RunMain; BadFlags false; RunMain] (start main))
  = Some 2%Z.
Proof. reflexivity. Qed.

Example main_killed_by_early_signal :
  exit (run (repeat RunMain 7 ++ [RunGo 0 false; Signal SIGTERM; RunMain])
            (start main))
  = Some 143%Z.
Proof. reflexivity. Qed.

(** Once [signal.Notify] has run a signal no longer ends the process:
    it waits in [c], is received by the goroutine, whose send then blocks
    for good, and [main] returns with status 0. *)
Example main_signal_after_notify :
  let p := run (repeat RunMain 7
                ++ [RunGo 0 false; RunGo 0 false; Signal SIGINT;
                    RunGo 0 false; Rendezvous 0]
                ++ repeat RunMain 6)
               (start main) in
  exit p = Some 0%Z /\ fired p = [TerminationSignal] /\ delivered p = 0.
Proof. repeat split. Qed.

End vaultd_facts.

(* ================================================================== *)
(** * Part III: more of the package *)
(* ================================================================== *)

(** ** Codecs *)

(** X2. No codec ever returns a Go error: on every input each of the
    eight either panics or returns with a nil error. A decoder panics on
    a nil message pointer. *)
Theorem gRPC_codecs_never_fail :
  Forall (fun f : Context -> any -> result (any * option error) =>
            forall ctx r,
              match f ctx r with
              | Ok (_, err) => err = None
              | Panic _ => True
              end) codecs
  /\ (forall ctx,
         DecodeGRPCHashRequest ctx (box_pbHashRequest None)
         = Panic nil_deref_panic
         /\ DecodeGRPCHashResponse ctx (box_pbHashResponse None)
            = Panic nil_deref_panic
         /\ DecodeGRPCValidateRequest ctx (box_pbValidateRequest None)
            = Panic nil_deref_panic
         /\ DecodeGRPCValidateResponse ctx (box_pbValidateResponse None)
            = Panic nil_deref_panic).
Proof.
  split.
  - unfold codecs.
    repeat (apply Forall_cons;
            [ intros ctx r;
              destruct r as [| v | v | v | v | [v |] | [v |] | [v |] | [v |]];
              cbn; auto |]).
    apply Forall_nil.
  - intros ctx. repeat split.
Qed.

(** ** Endpoints *)

Section MoreEndpointFacts.
Context {W : Type}.

(** X3. The endpoints made from a service never return a transport
    error: whenever one returns, the error is nil and the response is a
    [hashResponse] (a [validateResponse] for the validate endpoint). On a
    request of another type they panic, before the service is called. *)
Theorem made_endpoints_no_transport_error (srv : Service W) (ctx : Context)
        (request : any) (w : W) :
  match MakeHashEndpoint srv ctx request w with
  | Ok ((resp, err), _) => err = None /\ exists r, resp = box_hashResponse r
  | Panic _ => True
  end
  /\ match MakeValidateEndpoint srv ctx request w with
     | Ok ((resp, err), _) =>
         err = None /\ exists r, resp = box_validateResponse r
     | Panic _ => True
     end
  /\ ((forall v, request <> box_hashRequest v) ->
      MakeHashEndpoint srv ctx request w = Panic conversion_panic)
  /\ ((forall v, request <> box_validateRequest v) ->
      MakeValidateEndpoint srv ctx request w = Panic conversion_panic).
Proof.
  split; [| split; [| split]].
  - destruct request as [| v | v | v | v | v | v | v | v];
      try solve [cbn; auto].
    destruct v as [password]. rewrite MakeHashEndpoint_eq.
    destruct (Hash srv ctx password w) as [[[h [e |]] w'] | msg]; eauto.
  - destruct request as [| v | v | v | v | v | v | v | v];
      try solve [cbn; auto].
    destruct v as [password hash]. rewrite MakeValidateEndpoint_eq.
    destruct (Validate srv ctx password hash w) as [[[b [e |]] w'] | msg];
      eauto.
  - intros Hne.
    destruct request as [| v | v | v | v | v | v | v | v]; try reflexivity.
    exfalso. apply (Hne v). reflexivity.
  - intros Hne.
    destruct request as [| v | v | v | v | v | v | v | v]; try reflexivity.
    exfalso. apply (Hne v). reflexivity.
Qed.

(** X4. Whatever its two endpoints are, the aggregate follows the
    convention of the zero value: when [Endpoints.Hash] returns an error
    the hash next to it is empty, and when [Endpoints.Validate] returns an
    error the flag next to it is false. *)
Theorem Endpoints_zero_value_on_error (e : Endpoints W) (ctx : Context)
        (password hash : string) (w : W) :
  (forall h err w',
      Endpoints_Hash e ctx password w = Ok ((h, Some err), w') -> h = "")
  /\ (forall b err w',
         Endpoints_Validate e ctx password hash w = Ok ((b, Some err), w') ->
         b = false).
Proof.
  rewrite Endpoints_Hash_eq, Endpoints_Validate_eq. split.
  - intros h err w'.
    destruct (HashEndpoint e ctx _ w) as [[[resp [err0 |]] w0] | msg].
    + destruct resp; intros H; inv H; reflexivity.
    + destruct resp as [| r | r | r | r | r | r | r | r];
        try (intros H; discriminate H).
      destruct (hashResponse.Err r =? ""); intros H; inv H. reflexivity.
    + intros H. discriminate H.
  - intros b err w'.
    destruct (ValidateEndpoint e ctx _ w) as [[[resp [err0 |]] w0] | msg].
    + destruct resp; intros H; inv H; reflexivity.
    + destruct resp as [| r | r | r | r | r | r | r | r];
        try (intros H; discriminate H).
      destruct (validateResponse.Err r =? ""); intros H; inv H. reflexivity.
    + intros H. discriminate H.
Qed.

(** X5. A transport error of an endpoint passes through the aggregate
    unchanged, whatever response came with it; a response of another type
    than the expected one, with a nil error, makes the aggregate panic. *)
Theorem Endpoints_transport_error_and_panic (e : Endpoints W) (ctx : Context)
        (password hash : string) (w : W) :
  (forall resp err w',
      HashEndpoint e ctx (box_hashRequest (hashRequest.mk password)) w
      = Ok ((resp, Some err), w') ->
      Endpoints_Hash e ctx password w = Ok (("", Some err), w'))
  /\ (forall resp err w',
         ValidateEndpoint e ctx
           (box_validateRequest (validateRequest.mk password hash)) w
         = Ok ((resp, Some err), w') ->
         Endpoints_Validate e ctx password hash w
         = Ok ((false, Some err), w'))
  /\ (forall resp w',
         HashEndpoint e ctx (box_hashRequest (hashRequest.mk password)) w
         = Ok ((resp, None), w') ->
         (forall r, resp <> box_hashResponse r) ->
         Endpoints_Hash e ctx password w = Panic conversion_panic)
  /\ (forall resp w',
         ValidateEndpoint e ctx
           (box_validateRequest (validateRequest.mk password hash)) w
         = Ok ((resp, None), w') ->
         (forall r, resp <> box_validateResponse r) ->
         Endpoints_Validate e ctx password hash w = Panic conversion_panic).
Proof.
  rewrite Endpoints_Hash_eq, Endpoints_Validate_eq.
  split; [| split; [| split]].
  - intros resp err w' H. rewrite H. destruct resp; reflexivity.
  - intros resp err w' H. rewrite H. destruct resp; reflexivity.
  - intros resp w' H Hne. rewrite H.
    destruct resp as [| r | r | r | r | r | r | r | r]; try reflexivity.
    exfalso. apply (Hne r). reflexivity.
  - intros resp w' H Hne. rewrite H.
    destruct resp as [| r | r | r | r | r | r | r | r]; try reflexivity.
    exfalso. apply (Hne r). reflexivity.
Qed.

(** X6. Wrapping twice is wrapping once: the aggregate over the
    endpoints of (the aggregate over the endpoints of a service) returns,
    on every call, what the aggregate over the endpoints of the service
    returns, panics included. *)
Theorem Endpoints_wrapping_idempotent (S : Service W) (ctx : Context)
        (password hash : string) (w : W) :
  Endpoints_Hash
    (endpoints_of (Endpoints_Service (endpoints_of S))) ctx password w
  = Endpoints_Hash (endpoints_of S) ctx password w
  /\ Endpoints_Validate
       (endpoints_of (Endpoints_Service (endpoints_of S)))
       ctx password hash w
     = Endpoints_Validate (endpoints_of S) ctx password hash w.
Proof.
  split.
  - rewrite (Endpoints_Hash_eq (endpoints_of (Endpoints_Service _))).
    cbn [endpoints_of HashEndpoint]. rewrite MakeHashEndpoint_eq.
    cbn [Endpoints_Service Hash].
    rewrite Endpoints_Hash_eq. cbn [endpoints_of HashEndpoint].
    rewrite MakeHashEndpoint_eq.
    destruct (Hash S ctx password w) as [[[v [e |]] w'] | msg]; cbn;
      try reflexivity.
    destruct (Error e =? "") eqn:Hmsg; cbn; rewrite ?Hmsg; reflexivity.
  - rewrite (Endpoints_Validate_eq (endpoints_of (Endpoints_Service _))).
    cbn [endpoints_of ValidateEndpoint]. rewrite MakeValidateEndpoint_eq.
    cbn [Endpoints_Service Validate].
    rewrite Endpoints_Validate_eq. cbn [endpoints_of ValidateEndpoint].
    rewrite MakeValidateEndpoint_eq.
    destruct (Validate S ctx password hash w) as [[[v [e |]] w'] | msg]; cbn;
      try reflexivity.
    destruct (Error e =? "") eqn:Hmsg; cbn; rewrite ?Hmsg; reflexivity.
Qed.
End MoreEndpointFacts.

(** ** The rate limiter, composed *)

Lemma TakeAvailable_one (tb : ratelimit.Bucket) :
  TakeAvailable tb 1
  = if (ratelimit.availableTokens tb <=? 0)%Z
    then (0%Z, tb)
    else (1%Z, ratelimit.mkBucket (ratelimit.availableTokens tb - 1)).
Proof.
  cbn. unfold ratelimit.Bucket_TakeAvailable. cbn.
  destruct (Z.leb_spec (ratelimit.availableTokens tb) 0) as [Hle | Hlt];
    [reflexivity |].
  rewrite Z.min_l by lia. reflexivity.
Qed.

Lemma call_times_S {W : Type} (k : nat) (e : Endpoint W) (ctx : Context)
      (request : any) (w : W) :
  call_times (S k) e ctx request w
  = match e ctx request w with
    | Ok (r, w1) =>
        match call_times k e ctx request w1 with
        | Ok (rs, w2) => Ok (r :: rs, w2)
        | Panic msg => Panic msg
        end
    | Panic msg => Panic msg
    end.
Proof.
  cbn [call_times]. unfold bind, ret.
  destruct (e ctx request w) as [[r w1] | msg]; [| reflexivity].
  destruct (call_times k e ctx request w1) as [[rs w2] | msg]; reflexivity.
Qed.

Section LimiterComposed.
Context {W : Type}.
Variable ErrLimited : error.

(** X7. The aggregate over rate-limited endpoints. On an empty bucket
    [Endpoints.Hash] returns the empty hash and [Endpoints.Validate] the
    flag false, each with the limited error, and neither the bucket nor
    the world of the service changes. With a token available the call
    returns what the aggregate without the limiter returns, and one token
    is gone. *)
Theorem limited_Endpoints (S : Service W) (ctx : Context)
        (password hash : string) (tb : ratelimit.Bucket) (w : W) :
  ((ratelimit.availableTokens tb <= 0)%Z ->
   Endpoints_Hash (limited ErrLimited (endpoints_of S)) ctx password (tb, w)
   = Ok (("", Some ErrLimited), (tb, w))
   /\ Endpoints_Validate (limited ErrLimited (endpoints_of S))
                         ctx password hash (tb, w)
      = Ok ((false, Some ErrLimited), (tb, w)))
  /\ ((0 < ratelimit.availableTokens tb)%Z ->
      Endpoints_Hash (limited ErrLimited (endpoints_of S)) ctx password (tb, w)
      = match Endpoints_Hash (endpoints_of S) ctx password w with
        | Ok (r, w') =>
            Ok (r, (ratelimit.mkBucket (ratelimit.availableTokens tb - 1), w'))
        | Panic msg => Panic msg
        end
      /\ Endpoints_Validate (limited ErrLimited (endpoints_of S))
                            ctx password hash (tb, w)
         = match Endpoints_Validate (endpoints_of S) ctx password hash w with
           | Ok (r, w') =>
               Ok (r, (ratelimit.mkBucket (ratelimit.availableTokens tb - 1),
                       w'))
           | Panic msg => Panic msg
           end).
Proof.
  rewrite !Endpoints_Hash_eq, !Endpoints_Validate_eq.
  cbn [limited endpoints_of HashEndpoint ValidateEndpoint].
  rewrite !limiter_by_TakeAvailable, TakeAvailable_one.
  rewrite MakeHashEndpoint_eq, MakeValidateEndpoint_eq.
  split; intros Havail.
  - destruct (Z.leb_spec (ratelimit.availableTokens tb) 0) as [Hle | Hlt];
      [| lia].
    split; reflexivity.
  - destruct (Z.leb_spec (ratelimit.availableTokens tb) 0) as [Hle | Hlt];
      [lia |].
    cbn [fst snd Z.eqb]. split.
    + destruct (Hash S ctx password w) as [[[v [e |]] w'] | msg]; cbn;
        try reflexivity.
      destruct (Error e =? ""); reflexivity.
    + destruct (Validate S ctx password hash w) as [[[v [e |]] w'] | msg]; cbn;
        try reflexivity.
      destruct (Error e =? ""); reflexivity.
Qed.

(** X8. Without a refill, a bucket of [n] tokens lets through as many
    calls as it has tokens: of [k] attempts in a row the inner endpoint is
    invoked [min k n] times, the bucket is left with the other tokens and
    never goes below zero, and every attempt after the [n]-th is answered
    with a nil response and the limited error. *)
Theorem limiter_admits_as_many_as_tokens (next : Endpoint W) (ctx : Context)
        (request : any) (k n c : nat) (w : W) :
  returns_always next ->
  exists results w',
    call_times k (NewTokenBucketLimiter ErrLimited (counted next)) ctx request
               (ratelimit.mkBucket (Z.of_nat n), (c, w))
    = Ok (results,
          (ratelimit.mkBucket (Z.of_nat (n - Nat.min k n)),
           (c + Nat.min k n, w')))
    /\ length results = k
    /\ skipn (Nat.min k n) results
       = repeat (nil_interface, Some ErrLimited) (k - Nat.min k n).
Proof.
  intros Htotal. revert n c w.
  induction k as [| k IH]; intros n c w.
  - exists [], w. cbn. rewrite Nat.sub_0_r, Nat.add_0_r. auto.
  - rewrite call_times_S, limiter_by_TakeAvailable, TakeAvailable_one.
    cbn [ratelimit.availableTokens].
    destruct n as [| n'].
    + cbn [Z.of_nat Z.leb Z.compare fst snd Z.eqb].
      destruct (IH 0 c w) as [results [w' [Hrun [Hlen Htail]]]].
      rewrite Nat.min_0_r in *. cbn [Nat.sub Z.of_nat] in Hrun.
      rewrite Nat.add_0_r in Hrun. rewrite Hrun.
      exists ((nil_interface, Some ErrLimited) :: results), w'.
      cbn [Nat.sub Z.of_nat]. rewrite Nat.add_0_r.
      split; [reflexivity |]. split; [cbn; congruence |].
      cbn [skipn] in *. rewrite Nat.sub_0_r in *. rewrite Htail.
      reflexivity.
    + destruct (Z.leb_spec (Z.of_nat (S n')) 0) as [Hle | Hlt]; [lia |].
      cbn [fst snd Z.eqb]. unfold counted at 1.
      destruct (Htotal ctx request w) as [r [w1 Hnext]]. rewrite Hnext.
      replace (Z.of_nat (S n') - 1)%Z with (Z.of_nat n') by lia.
      destruct (IH n' (S c) w1) as [results [w' [Hrun [Hlen Htail]]]].
      rewrite Hrun.
      exists (r :: results), w'.
      rewrite <- Nat.succ_min_distr. cbn [Nat.sub skipn length].
      rewrite Nat.add_succ_r. cbn [Nat.add] in *.
      split; [reflexivity |]. split; [congruence | exact Htail].
Qed.
End LimiterComposed.

Lemma echoEndpoint_returns_always : returns_always echoEndpoint.
Proof. intros ctx request w. exists (request, None), w. reflexivity. Qed.

Lemma limiter_admits_as_many_as_tokens_witness :
  exists results,
    call_times 5
      (NewTokenBucketLimiter (errors_New "rate limit exceeded")
                             (counted echoEndpoint))
      Background nil_interface (ratelimit.mkBucket 2, (0, tt))
    = Ok (results, (ratelimit.mkBucket 0, (2, tt)))
    /\ skipn 2 results
       = repeat (nil_interface, Some (errors_New "rate limit exceeded")) 3.
Proof.
  destruct (limiter_admits_as_many_as_tokens
              (errors_New "rate limit exceeded") echoEndpoint
              Background nil_interface 5 2 0 tt echoEndpoint_returns_always)
    as [results [w' [Hrun [_ Htail]]]].
  exists results. destruct w'. split; [exact Hrun | exact Htail].
Defined.

(** ** The process, under every schedule *)

Module vaultd_more.
Import vaultd.

Lemma run_exited (schedule : list choice) (p : process) (status : Z) :
  exit p = Some status -> run schedule p = p.
Proof.
  intros Hex. unfold run.
  induction schedule as [| c schedule IH]; cbn; [reflexivity |].
  unfold step at 2. rewrite Hex. exact IH.
Qed.

(** What does not run [main] leaves its statements where they are. *)
Lemma step_keeps_main (c : choice) (p : process) :
  c <> RunMain ->
  forallb plain (main_k p) = true ->
  main_k (step c p) = main_k p.
Proof.
  intros Hc Hplain. unfold step.
  destruct (exit p) as [status |] eqn:Hex; [reflexivity |].
  destruct c as [| i fails | i | s | help]; [congruence | | | |].
  - apply (vaultd_facts.step_go_frame i fails p Hex).
  - rewrite (vaultd_facts.step_rendezvous_plain i p Hplain). reflexivity.
  - unfold step_signal. destruct (notified p); reflexivity.
  - unfold step_bad_flags.
    destruct (main_k p) as [| [what | | body | |] k] eqn:Hk; cbn; exact Hk.
Qed.

Lemma plain_main_ends (schedule : list choice) :
  forall p : process,
    forallb plain (main_k p) = true ->
    length (main_k p) < runs_of_main schedule ->
    exit (run schedule p) <> None.
Proof.
  induction schedule as [| c schedule IH]; intros p Hplain Hlen.
  - cbn in Hlen. lia.
  - destruct (exit p) as [status |] eqn:Hex.
    { rewrite (run_exited _ p status Hex). congruence. }
    change (run (c :: schedule) p) with (run schedule (step c p)).
    destruct c as [| i fails | i | s | help].
    + unfold runs_of_main in Hlen. cbn in Hlen.
      fold (runs_of_main schedule) in Hlen.
      unfold step. rewrite Hex. unfold step_main.
      destruct (main_k p) as [| [what | | body | |] k] eqn:Hk; cbn in Hplain;
        try discriminate.
      * erewrite run_exited by reflexivity. cbn. discriminate.
      * apply IH; cbn in *; auto. lia.
      * apply IH; cbn in *; auto. lia.
      * apply IH; cbn in *; auto. lia.
    + apply IH; rewrite step_keeps_main by (auto; discriminate); assumption.
    + apply IH; rewrite step_keeps_main by (auto; discriminate); assumption.
    + apply IH; rewrite step_keeps_main by (auto; discriminate); assumption.
    + apply IH; rewrite step_keeps_main by (auto; discriminate); assumption.
Qed.

(** X10. [main] never blocks: under every schedule, once the scheduler
    has let it run thirteen times (its twelve statements and the return)
    the process has ended, however the goroutines, the signals and the
    listeners were interleaved with it; on an accepted command line and
    without a signal it has ended with status 0. *)
Theorem main_always_returns (schedule : list choice) :
  13 <= runs_of_main schedule ->
  (exists status, exit (run schedule (start main)) = Some status)
  /\ (no_signal schedule = true ->
      exit (run schedule (start main)) = Some 0%Z).
Proof.
  intros Hruns.
  assert (Hended : exit (run schedule (start main)) <> None).
  { apply plain_main_ends; [reflexivity |]. cbn. lia. }
  split.
  - destruct (exit (run schedule (start main))) as [status |];
      [exists status; reflexivity | congruence].
  - intros Hquiet.
    destruct (vaultd_facts.main_calm schedule Hquiet) as [Hx | Hx];
      [congruence | exact Hx].
Qed.

(** A schedule in which the gRPC listener fails and its goroutine is
    left at its send while [main] is still running. *)
Lemma main_always_returns_witness :
  exit (run (repeat RunMain 7
             ++ [RunGo 0 false; RunGo 0 false; RunGo 0 false]
             ++ repeat RunMain 5
             ++ [RunGo 2 true; Rendezvous 2; RunMain])%list
            (start main)) = Some 0%Z.
Proof.
  apply (main_always_returns
           (repeat RunMain 7
            ++ [RunGo 0 false; RunGo 0 false; RunGo 0 false]
            ++ repeat RunMain 5
            ++ [RunGo 2 true; Rendezvous 2; RunMain])%list).
  - vm_compute. lia.
  - reflexivity.
Defined.

End vaultd_more.

(** ** Handlers: the endpoints behind the two transports *)

Section HandlerFacts.
Context {W : Type} {json : JSONDecoder}.

(** X11. The HTTP handlers over a service, as [NewHTTPServer] wires them.
    A body the decoder rejects is a transport failure and the endpoint is
    not invoked. A body it accepts is always answered with a payload,
    never with a transport failure, also when the service fails: the
    failure is the [Err] of the payload, after exactly one invocation of
    the endpoint. *)
Theorem http_handlers (srv : Service W) (ctx : Context) (r : http_Request)
        (n : nat) (w : W) :
  (forall partial e,
      Decode_hashRequest (Body r) (hashRequest.mk "") = (partial, Some e) ->
      serve decodeHashRequest (counted (MakeHashEndpoint srv)) ctx r (n, w)
      = Ok (TransportFailure e, (n, w)))
  /\ (forall req,
         Decode_hashRequest (Body r) (hashRequest.mk "") = (req, None) ->
         serve decodeHashRequest (counted (MakeHashEndpoint srv)) ctx r (n, w)
         = match Hash srv ctx (hashRequest.Password req) w with
           | Ok ((v, err), w') =>
               Ok (Payload (box_hashResponse
                              (hashResponse.mk v (message_of err))),
                   (S n, w'))
           | Panic msg => Panic msg
           end)
  /\ (forall partial e,
         Decode_validateRequest (Body r) (validateRequest.mk "" "")
         = (partial, Some e) ->
         serve decodeValidateRequest (counted (MakeValidateEndpoint srv))
               ctx r (n, w)
         = Ok (TransportFailure e, (n, w)))
  /\ (forall req,
         Decode_validateRequest (Body r) (validateRequest.mk "" "")
         = (req, None) ->
         serve decodeValidateRequest (counted (MakeValidateEndpoint srv))
               ctx r (n, w)
         = match Validate srv ctx (validateRequest.Password req)
                          (validateRequest.Hash req) w with
           | Ok ((v, err), w') =>
               Ok (Payload (box_validateResponse
                              (validateResponse.mk
                                 (match err with Some _ => false | None => v end)
                                 (message_of err))),
                   (S n, w'))
           | Panic msg => Panic msg
           end).
Proof.
  unfold serve, decodeHashRequest, decodeValidateRequest.
  split; [| split; [| split]].
  - intros partial e H. rewrite H. reflexivity.
  - intros [password] H. rewrite H. unfold bind, counted.
    rewrite MakeHashEndpoint_eq. cbn [hashRequest.Password].
    destruct (Hash srv ctx password w) as [[[v [e |]] w'] | msg]; reflexivity.
  - intros partial e H. rewrite H. reflexivity.
  - intros [password hash] H. rewrite H. unfold bind, counted.
    rewrite MakeValidateEndpoint_eq.
    cbn [validateRequest.Password validateRequest.Hash].
    destruct (Validate srv ctx password hash w) as [[[v [e |]] w'] | msg];
      reflexivity.
Qed.

Lemma grpcServer_eq (S : Service W) (sctx ctx : Context)
      (password hashed : string) (w : W) :
  grpcServer_Hash (NewGRPCServer sctx (endpoints_of S)) ctx
                  (Some (pb.HashRequest.mk password)) w
  = match Hash S sctx password w with
    | Ok ((v, err), w') =>
        Ok ((Some (pb.HashResponse.mk v (message_of err)), None), w')
    | Panic msg => Panic msg
    end
  /\ grpcServer_Validate (NewGRPCServer sctx (endpoints_of S)) ctx
                         (Some (pb.ValidateRequest.mk password hashed)) w
     = match Validate S sctx password hashed w with
       | Ok ((v, err), w') =>
           Ok ((Some (pb.ValidateResponse.mk
                        (match err with Some _ => false | None => v end)),
                None), w')
       | Panic msg => Panic msg
       end.
Proof.
  unfold grpcServer_Hash, grpcServer_Validate, NewGRPCServer.
  cbn [hash validate endpoints_of HashEndpoint ValidateEndpoint].
  unfold grpctransport_NewServer.
  split.
  - unfold bind at 1 2. cbn [lift DecodeGRPCHashRequest rbind
                              assert_pbHashRequest deref pb.HashRequest.Password].
    unfold bind at 1. rewrite MakeHashEndpoint_eq.
    destruct (Hash S sctx password w) as [[[v [e |]] w'] | msg]; reflexivity.
  - unfold bind at 1 2. cbn [lift DecodeGRPCValidateRequest rbind
                              assert_pbValidateRequest deref
                              pb.ValidateRequest.Password
                              pb.ValidateRequest.Hash].
    unfold bind at 1. rewrite MakeValidateEndpoint_eq.
    destruct (Validate S sctx password hashed w) as [[[v [e |]] w'] | msg];
      reflexivity.
Qed.

(** X12. The gRPC server over a service, as [NewGRPCServer] wires it.
    [Hash] answers every request with a reply and a nil error: the hash
    and, when the service failed, the message of the failure. [Validate]
    answers with the flag alone: when the service failed the reply is
    [Valid: false] with a nil error, and nothing of the failure is in it.
    A nil request pointer makes either method panic. *)
Theorem grpc_server_over_service (S : Service W) (sctx ctx : Context)
        (password hashed : string) (w : W) :
  grpcServer_Hash (NewGRPCServer sctx (endpoints_of S)) ctx
                  (Some (pb.HashRequest.mk password)) w
  = match Hash S sctx password w with
    | Ok ((v, err), w') =>
        Ok ((Some (pb.HashResponse.mk v (message_of err)), None), w')
    | Panic msg => Panic msg
    end
  /\ grpcServer_Validate (NewGRPCServer sctx (endpoints_of S)) ctx
                         (Some (pb.ValidateRequest.mk password hashed)) w
     = match Validate S sctx password hashed w with
       | Ok ((v, err), w') =>
           Ok ((Some (pb.ValidateResponse.mk
                        (match err with Some _ => false | None => v end)),
                None), w')
       | Panic msg => Panic msg
       end
  /\ grpcServer_Hash (NewGRPCServer sctx (endpoints_of S)) ctx None w
     = Panic nil_deref_panic
  /\ grpcServer_Validate (NewGRPCServer sctx (endpoints_of S)) ctx None w
     = Panic nil_deref_panic.
Proof.
  destruct (grpcServer_eq S sctx ctx password hashed w) as [Hh Hv].
  split; [exact Hh |]. split; [exact Hv |]. split; reflexivity.
Qed.

Lemma grpc_client_eq (S : Service W) (sctx ctx : Context)
        (password hashed : string) (w : W) :
  Endpoints_Hash (New (connect (NewGRPCServer sctx (endpoints_of S))))
                 ctx password w
  = Endpoints_Hash (endpoints_of S) sctx password w
  /\ Endpoints_Validate (New (connect (NewGRPCServer sctx (endpoints_of S))))
                        ctx password hashed w
     = match Validate S sctx password hashed w with
       | Ok ((v, None), w') => Ok ((v, None), w')
       | Ok ((_, Some _), w') => Ok ((false, None), w')
       | Panic msg => Panic msg
       end.
Proof.
  destruct (grpcServer_eq S sctx ctx password hashed w) as [Hh Hv].
  rewrite !Endpoints_Hash_eq, Endpoints_Validate_eq.
  cbn [New connect invoke_Hash invoke_Validate endpoints_of
       HashEndpoint ValidateEndpoint].
  unfold grpctransport_ClientEndpoint.
  split.
  - unfold bind at 1 2 3.
    cbn [lift EncodeGRPCHashRequest rbind assert_hashRequest
         assert_pbHashRequest hashRequest.Password].
    unfold bind at 1. rewrite Hh, MakeHashEndpoint_eq.
    destruct (Hash S sctx password w) as [[[v [e |]] w'] | msg]; cbn;
      reflexivity.
  - unfold bind at 1 2 3.
    cbn [lift EncodeGRPCValidateRequest rbind assert_validateRequest
         assert_pbValidateRequest validateRequest.Password
         validateRequest.Hash].
    unfold bind at 1. rewrite Hv.
    destruct (Validate S sctx password hashed w) as [[[v [e |]] w'] | msg];
      cbn; reflexivity.
Qed.

(** X13. A client made by [New] on a connection to that server. Its
    [Hash] returns, on every call, what the aggregate over the endpoints
    of the service returns in the same world. Its [Validate] returns the
    flag of the service when the service succeeds, and [false] with a nil
    error when the service fails: over gRPC a failure of [Validate] cannot
    be told from a mismatch. *)
Theorem grpc_client_over_server (S : Service W) (sctx ctx : Context)
        (password hashed : string) (w : W) :
  Endpoints_Hash (New (connect (NewGRPCServer sctx (endpoints_of S))))
                 ctx password w
  = Endpoints_Hash (endpoints_of S) sctx password w
  /\ Endpoints_Validate (New (connect (NewGRPCServer sctx (endpoints_of S))))
                        ctx password hashed w
     = match Validate S sctx password hashed w with
       | Ok ((v, None), w') => Ok ((v, None), w')
       | Ok ((_, Some _), w') => Ok ((false, None), w')
       | Panic msg => Panic msg
       end.
Proof. exact (grpc_client_eq S sctx ctx password hashed w). Qed.

End HandlerFacts.

(** ** One service behind both transports *)

Section AcrossTransports.
Context {W : Type} {bcrypt : Bcrypt W}.

(** The contract of the package, as above. *)
Hypothesis compare_generated :
  forall (password : list byte) (cost : Z) (w : W) (hash : list byte) (w' : W),
    GenerateFromPassword password cost w = ((hash, None), w') ->
    CompareHashAndPassword hash password = None.
Hypothesis error_has_message :
  forall (password : list byte) (cost : Z) (w : W) (hash : list byte)
         (e : error) (w' : W),
    GenerateFromPassword password cost w = ((hash, Some e), w') ->
    Error e <> "".

Lemma aggregate_Hash_ok (ctx : Context) (p h : string) (w w' : W) :
  Endpoints_Hash (endpoints_of NewService) ctx p w = Ok ((h, None), w') ->
  vaultService_Hash ctx p w = Ok ((h, None), w').
Proof.
  rewrite Endpoints_Hash_eq. cbn [endpoints_of HashEndpoint].
  rewrite MakeHashEndpoint_eq. cbn [NewService Hash].
  unfold vaultService_Hash.
  destruct (GenerateFromPassword (list_byte_of_string p) DefaultCost w)
    as [[bytes [e |]] w1] eqn:Hgen; cbn.
  - rewrite (nonempty_eqb_false _ (error_has_message _ _ _ _ _ _ Hgen)).
    intros H. discriminate H.
  - intros H. exact H.
Qed.

(** X14. A hash obtained through the gRPC client validates everywhere:
    when [Hash] of a client of the gRPC server over the hashing service
    succeeds with hash [h] for password [p], then [Validate] of [p] and
    [h] returns true with a nil error through the service itself, through
    the aggregate over its endpoints and through a gRPC client. *)
Theorem hash_over_gRPC_validates_everywhere
        (sctx ctx : Context) (p h : string) (w w' : W) :
  Endpoints_Hash (New (connect (NewGRPCServer sctx (endpoints_of NewService))))
                 ctx p w
  = Ok ((h, None), w') ->
  forall (sctx' ctx' : Context) (w'' : W),
    vaultService_Validate ctx' p h w'' = Ok ((true, None), w'')
    /\ Endpoints_Validate (endpoints_of NewService) ctx' p h w''
       = Ok ((true, None), w'')
    /\ Endpoints_Validate
         (New (connect (NewGRPCServer sctx' (endpoints_of NewService))))
         ctx' p h w''
       = Ok ((true, None), w'').
Proof.
  intros Hhash sctx' ctx' w''.
  destruct (grpc_client_eq NewService sctx ctx p h w) as [Hc _].
  rewrite Hc in Hhash. apply aggregate_Hash_ok in Hhash.
  apply vaultService_Hash_ok in Hhash. destruct Hhash as [bytes [Hgen ->]].
  assert (Hv : forall c w0,
             vaultService_Validate c p (string_of_list_byte bytes) w0
             = Ok ((true, None), w0)).
  { intros c w0. unfold vaultService_Validate.
    rewrite list_byte_of_string_of_list_byte.
    rewrite (compare_generated _ _ _ _ _ Hgen). reflexivity. }
  split; [apply Hv |]. split.
  - rewrite Endpoints_Validate_eq. cbn [endpoints_of ValidateEndpoint].
    rewrite MakeValidateEndpoint_eq. cbn [NewService Validate].
    rewrite Hv. reflexivity.
  - destruct (grpc_client_eq NewService sctx' ctx' p
                             (string_of_list_byte bytes) w'') as [_ Hcv].
    rewrite Hcv. cbn [NewService Validate]. rewrite Hv. reflexivity.
Qed.
End AcrossTransports.

Lemma hash_over_gRPC_validates_everywhere_witness :
  Endpoints_Validate
    (New (connect (NewGRPCServer Background
                     (endpoints_of (NewService (bcrypt := refBcrypt))))))
    Background "s3cret" "Aterc3s" 7
  = Ok ((true, None), 7).
Proof.
  apply (hash_over_gRPC_validates_everywhere (bcrypt := refBcrypt)
           refBcrypt_compare_generated refBcrypt_error_has_message
           Background Background "s3cret" "Aterc3s" 65 66 eq_refl
           Background Background 7).
Defined.
